(** * The resilient HTTP transport of the ord snap: [HttpClient]

    A shallow embedding of [packages/snap/src/api/http.ts] and the
    properties of its host canonicalisation, transform pipeline, request
    building and retry loop.

    Conventions of the embedding.
    - A promise that has run to completion is a [Completion]: fulfilled with
      a value or rejected with an error.  Asynchronous code is a state
      transformer over the chronological log of observable events (transport
      calls, transform invocations, console warnings).
    - A plain JS object used as a dictionary is a [gmap string JSValue] where
      only lookups matter (the [init] argument of [fetch]) and an association
      list in creation order where enumeration order matters ([for ... in]).
    - Function objects have an identity; their mutable [priority] property
      lives in a store indexed by that identity, so that [Object.assign(fn,
      {priority})] is seen by every alias of [fn].
    - What the hosting environment provides ([URL], [Buffer], the ambient
      globals) is a parameter: the class [Platform]. *)

From Equations Require Import Equations.
From stdpp Require Import base option list strings gmap pretty sorting.
From Stdlib Require Import Ascii Sorting.Sorted.

Open Scope string_scope.

(** ** Values, errors, completions *)

#[warnings="-register-all"]
Inductive JSValue : Type :=
| JSUndefined
| JSNull
| JSBoolean (b : bool)
| JSNumber (n : Z)
| JSString (s : string)
| JSObject (props : list (string * JSValue))
| JSHeaders (init : list (string * JSValue)).

(** A plain object with its own enumerable string keys in creation order;
    keys are pairwise distinct. *)
Abbreviation JSRecord := (list (string * JSValue)).

(** [`${v}`]: numbers are integers of magnitude below 10^21, which print in
    plain decimal. *)
Definition ToString (v : JSValue) : string :=
  match v with
  | JSUndefined => "undefined"
  | JSNull => "null"
  | JSBoolean true => "true"
  | JSBoolean false => "false"
  | JSNumber n => pretty n
  | JSString s => s
  | JSObject _ => "[object Object]"
  | JSHeaders _ => "[object Headers]"
  end.

(** An error object, by the class its prototype gives it at run time:
    [Error], [class AgentError extends Error], and the [TypeError] the
    platform raises. *)
Inductive JSError : Type :=
| Error (message : string)
| AgentError (message : string)
| TypeError (message : string).

(** [new HttpDefaultFetchError(message)].  The class extends [AgentError]
    and its constructor only calls [super(message)]; the constructor of
    [AgentError] ends with [Object.setPrototypeOf(this, AgentError.prototype)],
    so the object that is made has the prototype of [AgentError]: it is an
    [AgentError], and no instance of [HttpDefaultFetchError]. *)
Definition HttpDefaultFetchError (message : string) : JSError := AgentError message.

Inductive Completion (A : Type) : Type :=
| Fulfilled (a : A)
| Rejected (e : JSError).
Arguments Fulfilled {A} a.
Arguments Rejected {A} e.

#[global] Instance Completion_ret : MRet Completion := fun A a => Fulfilled a.
#[global] Instance Completion_bind : MBind Completion :=
  fun A B k m => match m with Fulfilled a => k a | Rejected e => Rejected e end.

#[global] Instance Completion_fmap : FMap Completion :=
  fun A B f m => match m with Fulfilled a => Fulfilled (f a) | Rejected e => Rejected e end.

(** Truthiness of an optional string: [undefined] and [''] are falsy. *)
Definition truthy (s : option string) : bool :=
  match s with
  | Some s => negb (String.eqb s "")
  | None => false
  end.

(** [s.endsWith(suffix)] *)
Definition endsWith (s suffix : string) : bool :=
  let n := String.length s in
  let m := String.length suffix in
  if (m <=? n)%nat then String.eqb (String.substring (n - m) m s) suffix else false.

(** ** Responses, requests, events *)

(** What this code reads of a [Response]; [text] is what
    [response.clone().text()] resolves to. *)
Record Response : Type := {
  status : Z;
  statusText : string;
  text : string
}.

(** [response.ok]: the status is in the range 200-299. *)
Definition ok (r : Response) : bool := ((200 <=? status r) && (status r <=? 299))%Z.

(** [interface HttpPostRequest extends Record<string, any>]: the envelope
    [httpPost] builds, [{ request, endpoint, body }]. *)
Record HttpRequest : Type := {
  request : gmap string JSValue;
  endpoint : string;
  body : JSValue
}.

Inductive Event : Type :=
| FetchCall (url : string) (init : gmap string JSValue)
| TransformCall (fn : nat) (arg : HttpRequest)
| ConsoleWarn (msg : string).

Definition is_FetchCall (e : Event) : bool :=
  match e with FetchCall _ _ => true | _ => false end.

(** The number of transport calls recorded in a log. *)
Definition transport_calls (log : list Event) : nat :=
  length (filter (fun e => is_FetchCall e = true) log).

(** The transport primitive.  Its answer may depend on how many transport
    calls were made before this one, on the URL and on the [init] object;
    [Rejected] is a call that did not complete. *)
Definition Fetch : Type := nat -> string -> gmap string JSValue -> Completion Response.

(** ** Asynchronous computations *)

Definition Async (A : Type) : Type := list Event -> list Event * Completion A.

#[global] Instance Async_ret : MRet Async := fun A a log => (log, Fulfilled a).
#[global] Instance Async_bind : MBind Async :=
  fun A B k m log =>
    match m log with
    | (log', Fulfilled a) => k a log'
    | (log', Rejected e) => (log', Rejected e)
    end.

Definition throw {A : Type} (e : JSError) : Async A := fun log => (log, Rejected e).

Definition settle {A : Type} (c : Completion A) : Async A := fun log => (log, c).

Definition emit (e : Event) : Async unit := fun log => ((log ++ [e])%list, Fulfilled tt).

Definition console_warn (msg : string) : Async unit := emit (ConsoleWarn msg).

Definition call_fetch (f : Fetch) (url : string) (init : gmap string JSValue) : Async Response :=
  fun log => ((log ++ [FetchCall url init])%list, f (transport_calls log) url init).

(** ** The hosting environment *)

(** The components of a parsed [URL] object. *)
Record URL : Type := {
  protocol : string;
  hostname : string;
  port : string;
  pathname : string;
  search : string;
  hash : string
}.

(** [url.hostname = h] *)
Definition set_hostname (h : string) (u : URL) : URL :=
  {| protocol := protocol u; hostname := h; port := port u;
     pathname := pathname u; search := search u; hash := hash u |}.

(** [window.location] *)
Record Location : Type := {
  location_protocol : string;
  location_href : string
}.

(** [window], and [global] or [self]: what this code reads of them. *)
Record Window : Type := {
  window_fetch : option Fetch;
  location : Location
}.

Record GlobalThis : Type := {
  global_fetch : option Fetch
}.

Class Platform : Type := {
  (** [new URL(url)] and [new URL(url, base)]; a [TypeError] on failure *)
  URL_new : string -> option URL -> Completion URL;
  (** ['' + url] *)
  URL_href : URL -> string;
  (** [Buffer.from(string, encoding)] *)
  Buffer : Type;
  Buffer_from : string -> string -> Buffer;
  (** ['' + buffer] *)
  Buffer_toString : Buffer -> string;
  (** the ambient globals; [None] when [typeof] gives ['undefined'] *)
  window : option Window;
  global : option GlobalThis;
  self : option GlobalThis
}.

(** ** Options and client *)

(* IC0 domain info *)
Definition API_DOMAIN : string := "astrox.app".
Definition API_SUB_DOMAIN : string := ".astrox.app".

Record Credentials : Type := {
  name : string;
  password : option string
}.

(** [interface HttpAgentOptions]; an absent field is [None].  [retryTimes]
    ranges over the non-negative integers. *)
Record HttpAgentOptions : Type := {
  fetch : option Fetch;
  fetchOptions : option (gmap string JSValue);
  callOptions : option (gmap string JSValue);
  host : option string;
  credentials : option Credentials;
  disableNonce : option bool;
  retryTimes : option nat
}.

(** The outcome of one call of a transform on the object [r] it is given:
    what [r] holds afterwards (a transform may write to its argument), and
    what the returned promise settles to.  A request is followed as one
    object: another object a transform returns is taken to share no part with
    the one it was given. *)
Inductive TransformResult : Type :=
| ReturnsUndefined                  (* nothing *)
| ReturnsArgument                   (* the very object it was given *)
| ReturnsFresh (r2 : HttpRequest).  (* another object *)

Record TransformRun : Type := {
  argument_after : HttpRequest;
  settled : Completion TransformResult
}.

(** [interface HttpAgentRequestTransformFn]: a function object.  [fn_ref] is
    its identity, [fn_call] its code; its [priority] property is kept in the
    store (see [addTransform]). *)
Record HttpAgentRequestTransformFn : Type := {
  fn_ref : nat;
  fn_call : HttpRequest -> TransformRun
}.

(** [class HttpClient] *)
Record HttpClient : Type := {
  _pipeline : list HttpAgentRequestTransformFn;
  _fetch : Fetch;
  _fetchOptions : option (gmap string JSValue);
  _callOptions : option (gmap string JSValue);
  _timeDiffMsecs : Z;
  _host : URL;
  _credentials : option string;
  _rootKeyFetched : bool;
  _retryTimes : nat
}.

Definition set_pipeline (p : list HttpAgentRequestTransformFn) (c : HttpClient) : HttpClient :=
  {| _pipeline := p; _fetch := _fetch c; _fetchOptions := _fetchOptions c;
     _callOptions := _callOptions c; _timeDiffMsecs := _timeDiffMsecs c;
     _host := _host c; _credentials := _credentials c;
     _rootKeyFetched := _rootKeyFetched c; _retryTimes := _retryTimes c |}.

(** [/^[a-z]+:/]: one or more lower-case letters, then a colon. *)
Definition is_lower (a : ascii) : bool :=
  let n := nat_of_ascii a in ((97 <=? n) && (n <=? 122))%nat.

Fixpoint match_scheme (seen : bool) (s : string) : bool :=
  match s with
  | EmptyString => false
  | String a rest =>
      if is_lower a then match_scheme true rest
      else seen && Ascii.eqb a ":"%char
  end.

Section Client.
Context `{Platform}.

Definition getDefaultFetch : Completion Fetch :=
  match window with
  | Some w =>
      (* Browser context *)
      match window_fetch w with
      | Some f => Fulfilled f
      | None => Rejected (HttpDefaultFetchError
          "Fetch implementation was not available. You appear to be in a browser context, but window.fetch was not present.")
      end
  | None =>
      match global with
      | Some g =>
          (* Node context *)
          match global_fetch g with
          | Some f => Fulfilled f
          | None => Rejected (HttpDefaultFetchError
              "Fetch implementation was not available. You appear to be in a Node.js context, but global.fetch was not available.")
          end
      | None =>
          match self ≫= global_fetch with
          | Some f => Fulfilled f
          | None => Rejected (HttpDefaultFetchError
              "Fetch implementation was not available. Please provide fetch to the HttpAgent constructor, or ensure it is available in the window or global context.")
          end
      end
  end.

(** The host the constructor resolves, before the rewrite. *)
Definition resolve_host (options : HttpAgentOptions) : Completion URL :=
  match host options with
  | Some h =>
      match window with
      | Some w =>
          if negb (match_scheme false h)
          then URL_new (location_protocol (location w) +:+ "//" +:+ h) None
          else URL_new h None
      | None => URL_new h None
      end
  | None =>
      match window with
      | Some w => URL_new (location_href (location w)) None
      | None => Rejected (Error "Must specify a host to connect to.")
      end
  end.

(** [`${name}${password ? ':' + password : ''}`] *)
Definition credential_string (cr : Credentials) : string :=
  name cr +:+ (if truthy (password cr) then ":" +:+ default "" (password cr) else "").

Definition constructor (options : HttpAgentOptions) : Completion HttpClient :=
  f ← match fetch options with Some f => Fulfilled f | None => getDefaultFetch end;
  h ← resolve_host options;
  (* Default is 3, only set if option is provided *)
  let retry := match retryTimes options with Some n => n | None => 3%nat end in
  (* Rewrite to avoid redirects *)
  let h := if endsWith (hostname h) API_SUB_DOMAIN then set_hostname API_DOMAIN h else h in
  mret {| _pipeline := [];
          _fetch := f;
          _fetchOptions := fetchOptions options;
          _callOptions := callOptions options;
          _timeDiffMsecs := 0;
          _host := h;
          _credentials := credential_string <$> credentials options;
          _rootKeyFetched := false;
          _retryTimes := retry |}.

Definition isLocal (c : HttpClient) : bool :=
  let hostname := hostname (_host c) in
  String.eqb hostname "127.0.0.1" || endsWith hostname "localhost".

End Client.

(** ** The transform pipeline *)

(** [x.priority || 0], for the [priority] property read from the store. *)
Definition priority_or_0 (p : option Z) : Z :=
  match p with
  | Some p => if (p =? 0)%Z then 0%Z else p
  | None => 0%Z
  end.

(** [array.findIndex(p)]: the first index whose element satisfies [p], or -1. *)
Fixpoint findIndex {A : Type} (p : A -> bool) (l : list A) : Z :=
  match l with
  | [] => (-1)%Z
  | x :: l' =>
      if p x then 0%Z
      else let i := findIndex p l' in if (0 <=? i)%Z then (i + 1)%Z else (-1)%Z
  end.

(** [array.splice(start, 0, item)] for [0 <= start]. *)
Definition splice {A : Type} (start : nat) (item : A) (l : list A) : list A :=
  (take start l ++ item :: drop start l)%list.

(** [addTransform(fn, priority = fn.priority || 0)].  [store] holds the
    [priority] property of every function object; [None] for [priority] is
    an omitted argument. *)
Definition addTransform (fn : HttpAgentRequestTransformFn) (priority : option Z)
    (store : gmap nat Z) (c : HttpClient) : gmap nat Z * HttpClient :=
  let priority :=
    match priority with
    | Some p => p
    | None => priority_or_0 (store !! fn_ref fn)
    end in
  (* Keep the pipeline sorted at all time, by priority. *)
  let i := findIndex (fun x => (priority_or_0 (store !! fn_ref x) <? priority)%Z) (_pipeline c) in
  let start := if (0 <=? i)%Z then Z.to_nat i else length (_pipeline c) in
  (<[fn_ref fn := priority]> store, set_pipeline (splice start fn (_pipeline c)) c).

(** A run of [addTransform] calls, in order. *)
Fixpoint addTransforms (calls : list (HttpAgentRequestTransformFn * option Z))
    (store : gmap nat Z) (c : HttpClient) : gmap nat Z * HttpClient :=
  match calls with
  | [] => (store, c)
  | (fn, priority) :: calls' =>
      let '(store', c') := addTransform fn priority store c in
      addTransforms calls' store' c'
  end.

(** The object [r] flowing through the promise chain of [_transform] is
    either the very object [_transform] was given ([other = None]) or a
    distinct object returned by a transform; [origin] is what the former
    holds now. *)
Record Flow : Type := {
  origin : HttpRequest;
  other : option HttpRequest
}.

Definition current (f : Flow) : HttpRequest := default (origin f) (other f).

(** [r => fn(r).then(r2 => r2 || r)] *)
Definition then_step (fn : HttpAgentRequestTransformFn) (f : Flow) : Async Flow :=
  let r := current f in
  emit (TransformCall (fn_ref fn) r);;
  let run := fn_call fn r in
  let f' :=
    match other f with
    | None => {| origin := argument_after run; other := None |}
    | Some _ => {| origin := origin f; other := Some (argument_after run) |}
    end in
  r2 ← settle (settled run);
  match r2 with
  | ReturnsUndefined => mret f'
  | ReturnsArgument => mret f'
  | ReturnsFresh r2 => mret {| origin := origin f'; other := Some r2 |}
  end.

(** [for (const fn of this._pipeline) p = p.then(...)] *)
Fixpoint then_chain (pipeline : list HttpAgentRequestTransformFn) (p : Async Flow) : Async Flow :=
  match pipeline with
  | [] => p
  | fn :: pipeline' => then_chain pipeline' (p ≫= then_step fn)
  end.

Definition _transform (c : HttpClient) (request : HttpRequest) : Async Flow :=
  let p := mret {| origin := request; other := None |} in
  then_chain (_pipeline c) p.

(** ** The retry loop *)

Definition LF : string := String (ascii_of_nat 10) "".

Definition errorMessage (response : Response) : string :=
  "Server returned an error:" +:+ LF +:+
  "  Code: " +:+ pretty (status response) +:+ " (" +:+ statusText response +:+ ")" +:+ LF +:+
  "  Body: " +:+ text response +:+ LF.

Definition exceeded_message (c : HttpClient) : string :=
  "AgentError: Exceeded configured limit of " +:+ pretty (_retryTimes c) +:+
  " retry attempts. Please check your network connection or try again in a few moments".

Equations? _requestAndRetry (c : HttpClient) (request : Async Response) (tries : nat)
    : Async Response by wf (_retryTimes c - tries)%nat lt :=
_requestAndRetry c request tries :=
  if (_retryTimes c <? tries)%nat && negb (_retryTimes c =? 0)%nat then
    throw (Error (exceeded_message c))
  else
    response ← request;
    if negb (ok response) then
      match decide (tries < _retryTimes c)%nat with
      | left _ =>
          console_warn (errorMessage response +:+ "  Retrying request.");;
          _requestAndRetry c request (tries + 1)
      | right _ => throw (Error (errorMessage response))
      end
    else mret response.
Proof. lia. Qed.

(** ** Enumeration of an object's properties *)

Definition digit_value (a : ascii) : option N :=
  let n := N_of_ascii a in
  if ((48 <=? n) && (n <=? 57))%N then Some (n - 48)%N else None.

Fixpoint decimal_value (acc : N) (s : string) : option N :=
  match s with
  | EmptyString => Some acc
  | String a rest => d ← digit_value a; decimal_value (10 * acc + d)%N rest
  end.

(** A property key is an array index when it is the canonical decimal
    string of an integer below 2^32 - 1. *)
Definition array_index (key : string) : option N :=
  match key with
  | EmptyString => None
  | _ =>
      n ← decimal_value 0 key;
      if String.eqb (pretty n) key && (n <? 2 ^ 32 - 1)%N then Some n else None
  end.

Fixpoint insert_by_index (x : N * string) (l : list (N * string)) : list (N * string) :=
  match l with
  | [] => [x]
  | y :: l' => if (x.1 <=? y.1)%N then x :: l else y :: insert_by_index x l'
  end.

(** The keys [for (const id in o)] visits, in order: array indices in
    ascending numeric order, then the other keys in creation order. *)
Definition for_in (o : JSRecord) : list string :=
  let keys := o.*1 in
  let indices := omap (fun k => n ← array_index k; Some (n, k)) keys in
  ((foldr insert_by_index [] indices).*2 ++ filter (fun k => array_index k = None) keys)%list.

(** [o[id]] *)
Fixpoint get_property (o : JSRecord) (id : string) : JSValue :=
  match o with
  | [] => JSUndefined
  | (k, v) :: o' => if String.eqb k id then v else get_property o' id
  end.

(** ** Requests *)

(** One turn of the loop of [httpGet] over [(url, c)]. *)
Definition query_step (body : JSRecord) (acc : string * nat) (id : string) : string * nat :=
  let '(url, c) := acc in
  let url := if (c =? 0)%nat then url +:+ "?" else url +:+ "&" in
  let url := url +:+ (id +:+ "=" +:+ ToString (get_property body id)) in
  (url, S c).

(** The relative URL [httpGet] has built when its loop ends. *)
Definition query_url (endpoint : string) (body : JSRecord) : string :=
  (foldl (query_step body) (endpoint, 0%nat) (for_in body)).1.

Section Requests.
Context `{Platform}.

(** ['Basic ' + Buffer.from(this._credentials, 'base64')] *)
Definition basic_auth (credentials : string) : string :=
  "Basic " +:+ Buffer_toString (Buffer_from credentials "base64").

(** The [headers] object [httpGet] builds. *)
Definition get_headers (c : HttpClient) : JSRecord :=
  if truthy (_credentials c)
  then [("Authorization", JSString (basic_auth (default "" (_credentials c))))]
  else [].

(** [this._fetch('' + new URL(url, this._host), init)]; evaluated anew at
    every attempt. *)
Definition fetch_at (c : HttpClient) (url : string) (init : gmap string JSValue) : Async Response :=
  u ← settle (URL_new url (Some (_host c)));
  call_fetch (_fetch c) (URL_href u) init.

(** [{ headers, ...this._fetchOptions }] *)
Definition get_init (c : HttpClient) (headers : JSRecord) : gmap string JSValue :=
  default ∅ (_fetchOptions c) ∪ {[ "headers" := JSObject headers ]}.

Definition httpGet (c : HttpClient) (endpoint : string) (body : JSRecord) : Async Response :=
  let headers := get_headers c in
  let url := query_url endpoint body in
  response ← _requestAndRetry c (fetch_at c url (get_init c headers)) 0;
  mret response.

(** The object literal [httpPost] hands to [new Headers]. *)
Definition post_headers_init (c : HttpClient) : JSRecord :=
  ("Content-Type", JSString "application/json") ::
  (if truthy (_credentials c)
   then [("Authorization", JSString (basic_auth (default "" (_credentials c))))]
   else []).

(** The [payload] object [httpPost] builds.  [JSHeaders init] is the object
    [new Headers(init)] makes.  [new Headers] is taken to accept [init]: where
    it does not (a value that is no legal header value makes it raise a
    [TypeError]), [httpPost] ends there, before the pipeline runs and before
    any transport call, and nothing below describes that run. *)
Definition post_payload (c : HttpClient) (endpoint : string) (body : JSRecord) : HttpRequest :=
  {| request :=
       {[ "method" := JSString "POST";
          "headers" := JSHeaders
            (("Content-Type", JSString "application/json") ::
             (if truthy (_credentials c)
              then [("Authorization", JSString (basic_auth (default "" (_credentials c))))]
              else [])) ]};
     endpoint := endpoint;
     body := JSObject body |}.

(** [{ ...this._callOptions, ...payload.request, body: transformed.body }] *)
Definition post_init (c : HttpClient) (payload transformed : HttpRequest) : gmap string JSValue :=
  <["body" := body transformed]> (request payload ∪ default ∅ (_callOptions c)).

Definition httpPost (c : HttpClient) (endpoint : string) (body : JSRecord) : Async Response :=
  let payload := post_payload c endpoint body in
  flow ← _transform c payload;
  let payload := origin flow in
  let transformed := current flow in
  response ← _requestAndRetry c (fetch_at c endpoint (post_init c payload transformed)) 0;
  mret response.

End Requests.

(** ** Notions the properties are stated with *)

(** The priority a transform carries, read as [addTransform] reads it. *)
Definition priority_in (store : gmap nat Z) (fn : HttpAgentRequestTransformFn) : Z :=
  priority_or_0 (store !! fn_ref fn).

(** A pipeline in descending order of priority. *)
Definition descending (store : gmap nat Z) (pipeline : list HttpAgentRequestTransformFn) : Prop :=
  StronglySorted (fun a b => (priority_in store b <= priority_in store a)%Z) pipeline.

(** [a] stands at an earlier position than [b] in [l]. *)
Definition before {A : Type} (a b : A) (l : list A) : Prop :=
  exists i j : nat, (i < j)%nat /\ l !! i = Some a /\ l !! j = Some b.

(** The identities of the functions registered by a run of calls. *)
Definition registered (calls : list (HttpAgentRequestTransformFn * option Z)) : list nat :=
  fn_ref <$> calls.*1.

(** The pipeline holds the functions registered so far ([added], in the
    order of their registration) in descending order of priority, those of
    equal priority in the order of their registration. *)
Definition well_ordered (store : gmap nat Z) (added : list nat)
    (pipeline : list HttpAgentRequestTransformFn) : Prop :=
  fn_ref <$> pipeline ≡ₚ added /\
  descending store pipeline /\
  forall a b : nat,
    before a b added ->
    priority_or_0 (store !! a) = priority_or_0 (store !! b) ->
    before a b (fn_ref <$> pipeline).

(** The request one step of the pipeline hands on, given the request [r] it
    received: the object the transform returned, or else [r] itself, as it
    is after the call. *)
Definition produced (fn : HttpAgentRequestTransformFn) (r : HttpRequest) : HttpRequest :=
  match settled (fn_call fn r) with
  | Fulfilled (ReturnsFresh r2) => r2
  | _ => argument_after (fn_call fn r)
  end.

(** Sequential application in pipeline order: the invocations made, each
    with the request it received, and the request that comes out. *)
Fixpoint thread (pipeline : list HttpAgentRequestTransformFn) (r : HttpRequest)
    : list (nat * HttpRequest) * Completion HttpRequest :=
  match pipeline with
  | [] => ([], Fulfilled r)
  | fn :: pipeline' =>
      match settled (fn_call fn r) with
      | Rejected e => ([(fn_ref fn, r)], Rejected e)
      | Fulfilled _ =>
          let '(calls, out) := thread pipeline' (produced fn r) in
          ((fn_ref fn, r) :: calls, out)
      end
  end.

Definition transform_events (calls : list (nat * HttpRequest)) : list Event :=
  (fun '(fn, r) => TransformCall fn r) <$> calls.

(** The transform invocations recorded in a log. *)
Definition transform_calls (log : list Event) : list (nat * HttpRequest) :=
  omap (fun e => match e with TransformCall fn r => Some (fn, r) | _ => None end) log.

(** The transport calls recorded in a log. *)
Definition fetch_calls (log : list Event) : list (string * gmap string JSValue) :=
  omap (fun e => match e with FetchCall url init => Some (url, init) | _ => None end) log.

(** The transport answers a non-2xx response to each of the [count] calls
    numbered [first], [first + 1], ... *)
Definition refuses (f : Fetch) (url : string) (init : gmap string JSValue)
    (first count : nat) : Prop :=
  forall i : nat, (i < count)%nat ->
    exists r : Response, f (first + i)%nat url init = Fulfilled r /\ ok r = false.

(** The console warnings recorded in a log. *)
Definition warnings (log : list Event) : list string :=
  omap (fun e => match e with ConsoleWarn msg => Some msg | _ => None end) log.

(** The events of attempts that were retried: for each non-2xx response
    [r] of [rs], the transport call it answered and the warning logged for
    it. *)
Definition retried (url : string) (init : gmap string JSValue) (rs : list Response)
    : list Event :=
  rs ≫= fun r => [FetchCall url init; ConsoleWarn (errorMessage r +:+ "  Retrying request.")].

(** A query string over the pairs in the order given: [key=value] joined by
    [&] after a leading [?], empty when there is no pair. *)
Fixpoint join_pairs (pairs : JSRecord) : string :=
  match pairs with
  | [] => ""
  | [(k, v)] => k +:+ "=" +:+ ToString v
  | (k, v) :: pairs' => k +:+ "=" +:+ ToString v +:+ "&" +:+ join_pairs pairs'
  end.

Definition query_string (pairs : JSRecord) : string :=
  match pairs with
  | [] => ""
  | _ => "?" +:+ join_pairs pairs
  end.

(** Base64 (RFC 4648), the encoding of HTTP Basic credentials. *)
Definition base64_alphabet : list ascii :=
  String.list_ascii_of_string "ABCDEFGHIJKLMNOPQRSTUVWXYZabcdefghijklmnopqrstuvwxyz0123456789+/".

Definition base64_char (sextet : N) : string :=
  String (nth (N.to_nat sextet) base64_alphabet "="%char) "".

Fixpoint base64_of_bytes (bytes : list N) : string :=
  match bytes with
  | [] => ""
  | [a] =>
      base64_char (N.shiftr a 2) +:+
      base64_char (N.shiftl (N.land a 3) 4) +:+ "=="
  | [a; b] =>
      base64_char (N.shiftr a 2) +:+
      base64_char (N.lor (N.shiftl (N.land a 3) 4) (N.shiftr b 4)) +:+
      base64_char (N.shiftl (N.land b 15) 2) +:+ "="
  | a :: b :: c :: bytes' =>
      base64_char (N.shiftr a 2) +:+
      base64_char (N.lor (N.shiftl (N.land a 3) 4) (N.shiftr b 4)) +:+
      base64_char (N.lor (N.shiftl (N.land b 15) 2) (N.shiftr c 6)) +:+
      base64_char (N.land c 63) +:+
      base64_of_bytes bytes'
  end.

Definition base64 (s : string) : string :=
  base64_of_bytes (N_of_ascii <$> String.list_ascii_of_string s).

(** ** A sample platform

    A small hosting environment on which the general statements are run:
    URLs of the shape [scheme://host[:port][/path][?query][#fragment]] and
    path-absolute references against a base, a lenient base64 reader for
    [Buffer.from], no ambient [fetch]. *)
Module Sample.

(** The part of [s] before the first character satisfying [stop], and the
    rest from that character on. *)
Fixpoint split_at (stop : ascii -> bool) (s : string) : string * string :=
  match s with
  | EmptyString => ("", "")
  | String a rest =>
      if stop a then ("", s)
      else let '(l, r) := split_at stop rest in (String a l, r)
  end.

Definition is_char (c : ascii) (a : ascii) : bool := Ascii.eqb a c.

Definition ends_path (a : ascii) : bool := is_char "?" a || is_char "#" a.

Definition ends_authority (a : ascii) : bool := is_char "/" a || ends_path a.

Definition lower (a : ascii) : ascii :=
  let n := nat_of_ascii a in
  if ((65 <=? n) && (n <=? 90))%nat then ascii_of_nat (n + 32) else a.

Fixpoint lowercase (s : string) : string :=
  match s with
  | EmptyString => ""
  | String a rest => String (lower a) (lowercase rest)
  end.

Definition tail (s : string) : string :=
  match s with
  | EmptyString => ""
  | String _ rest => rest
  end.

(** [/path?query#fragment] onto the origin of [base] *)
Definition with_path (base : URL) (s : string) : URL :=
  let '(path, s) := split_at ends_path s in
  let '(query, fragment) := split_at (is_char "#") s in
  {| protocol := protocol base;
     hostname := hostname base;
     port := port base;
     pathname := if String.eqb path "" then "/" else path;
     search := if String.eqb query "?" then "" else query;
     hash := if String.eqb fragment "#" then "" else fragment |}.

Definition parse_absolute (s : string) : option URL :=
  if match_scheme false s then
    let '(scheme, rest) := split_at (is_char ":") s in
    if String.prefix "://" rest then
      let '(authority, rest) := split_at ends_authority (String.substring 3 (String.length rest - 3) rest) in
      let '(h, p) := split_at (is_char ":") authority in
      if String.eqb h "" then None
      else Some (with_path {| protocol := scheme +:+ ":"; hostname := lowercase h;
                              port := tail p; pathname := "/"; search := ""; hash := "" |} rest)
    else None
  else None.

Definition new_URL (s : string) (base : option URL) : Completion URL :=
  match parse_absolute s with
  | Some u => Fulfilled u
  | None =>
      match base with
      | Some b =>
          if String.prefix "/" s then Fulfilled (with_path b s)
          else Rejected (TypeError "Invalid URL")
      | None => Rejected (TypeError "Invalid URL")
      end
  end.

Definition href (u : URL) : string :=
  protocol u +:+ "//" +:+ hostname u +:+
  (if String.eqb (port u) "" then "" else ":" +:+ port u) +:+
  pathname u +:+ search u +:+ hash u.

(** The value of a base64 digit, in the standard or the URL-safe alphabet. *)
Definition sextet (a : ascii) : option N :=
  let n := N_of_ascii a in
  if ((65 <=? n) && (n <=? 90))%N then Some (n - 65)%N
  else if ((97 <=? n) && (n <=? 122))%N then Some (n - 71)%N
  else if ((48 <=? n) && (n <=? 57))%N then Some (n + 4)%N
  else if ((n =? 43) || (n =? 45))%N then Some 62%N
  else if ((n =? 47) || (n =? 95))%N then Some 63%N
  else None.

(** The digits of the input up to the first [=]; other characters are
    passed over. *)
Fixpoint sextets (s : string) : list N :=
  match s with
  | EmptyString => []
  | String a rest =>
      if is_char "=" a then []
      else match sextet a with
           | Some v => v :: sextets rest
           | None => sextets rest
           end
  end.

Fixpoint bytes_of_sextets (l : list N) : list N :=
  match l with
  | a :: b :: c :: d :: l' =>
      N.lor (N.shiftl a 2) (N.shiftr b 4) ::
      N.lor (N.shiftl (N.land b 15) 4) (N.shiftr c 2) ::
      N.lor (N.shiftl (N.land c 3) 6) d :: bytes_of_sextets l'
  | [a; b; c] =>
      [N.lor (N.shiftl a 2) (N.shiftr b 4);
       N.lor (N.shiftl (N.land b 15) 4) (N.shiftr c 2)]
  | [a; b] => [N.lor (N.shiftl a 2) (N.shiftr b 4)]
  | _ => []
  end.

Definition from (s encoding : string) : list N :=
  if String.eqb encoding "base64" then bytes_of_sextets (sextets s)
  else N_of_ascii <$> String.list_ascii_of_string s.

(** The bytes, one character each. *)
Definition show (b : list N) : string :=
  String.string_of_list_ascii (ascii_of_N <$> b).

(** The sample platform, for any implementation of [Buffer]. *)
Definition platform_with (B : Type) (of_string : string -> string -> B) (to_string : B -> string)
    : Platform :=
  {| URL_new := new_URL;
     URL_href := href;
     Buffer := B;
     Buffer_from := of_string;
     Buffer_toString := to_string;
     window := None;
     global := Some {| global_fetch := None |};
     self := None |}.

Definition platform : Platform := platform_with (list N) from show.

(** The same platform inside a page at [https://wallet.example/app], with a
    [window.fetch] of its own. *)
Definition browser (f : Fetch) : Platform :=
  {| URL_new := new_URL;
     URL_href := href;
     Buffer := list N;
     Buffer_from := from;
     Buffer_toString := show;
     window := Some {| window_fetch := Some f;
                       location := {| location_protocol := "https:";
                                      location_href := "https://wallet.example/app" |} |};
     global := None;
     self := None |}.

Definition response (code : Z) (reason content : string) : Response :=
  {| status := code; statusText := reason; text := content |}.

(** A server that answers 503 to the first [failures] calls and 200
    afterwards. *)
Definition flaky (failures : nat) : Fetch :=
  fun k _ _ =>
    if (k <? failures)%nat
    then Fulfilled (response 503 "Service Unavailable" "busy")
    else Fulfilled (response 200 "OK" "done").

(** A server that always answers 503. *)
Definition down : Fetch :=
  fun _ _ _ => Fulfilled (response 503 "Service Unavailable" "busy").

(** A transport whose first call does not complete. *)
Definition unreachable : Fetch :=
  fun k _ _ =>
    if (k =? 0)%nat then Rejected (TypeError "fetch failed")
    else Fulfilled (response 200 "OK" "done").

Definition options (f : Fetch) (h : string) (cr : option Credentials) (retries : option nat)
    : HttpAgentOptions :=
  {| fetch := Some f; fetchOptions := None; callOptions := None; host := Some h;
     credentials := cr; disableNonce := None; retryTimes := retries |}.

(** The client [constructor] makes from [options f "https://x.astrox.app"
    ...], with a pipeline registered afterwards. *)
Definition client (f : Fetch) (retries : nat) (cr : option string)
    (pipeline : list HttpAgentRequestTransformFn) : HttpClient :=
  {| _pipeline := pipeline; _fetch := f; _fetchOptions := None; _callOptions := None;
     _timeDiffMsecs := 0;
     _host := {| protocol := "https:"; hostname := "astrox.app"; port := "";
                 pathname := "/"; search := ""; hash := "" |};
     _credentials := cr; _rootKeyFetched := false; _retryTimes := retries |}.

(** A client with extra options for its plain and its call requests. *)
Definition client_with (f : Fetch) (plain call : option (gmap string JSValue))
    (pipeline : list HttpAgentRequestTransformFn) : HttpClient :=
  {| _pipeline := pipeline; _fetch := f; _fetchOptions := plain; _callOptions := call;
     _timeDiffMsecs := 0;
     _host := {| protocol := "https:"; hostname := "astrox.app"; port := "";
                 pathname := "/"; search := ""; hash := "" |};
     _credentials := Some "dXNlcg"; _rootKeyFetched := false; _retryTimes := 3 |}.

(** A transform that leaves its argument alone and returns nothing. *)
Definition silent (id : nat) : HttpAgentRequestTransformFn :=
  {| fn_ref := id;
     fn_call := fun r => {| argument_after := r; settled := Fulfilled ReturnsUndefined |} |}.

(** A transform that returns a new request with method PUT, no headers and
    the body [b]. *)
Definition rewriting (id : nat) (b : JSValue) : HttpAgentRequestTransformFn :=
  {| fn_ref := id;
     fn_call := fun r =>
       {| argument_after := r;
          settled := Fulfilled (ReturnsFresh
            {| request := {[ "method" := JSString "PUT" ]};
               endpoint := endpoint r; body := b |}) |} |}.

(** A transform whose promise is rejected with [e]. *)
Definition failing (id : nat) (e : JSError) : HttpAgentRequestTransformFn :=
  {| fn_ref := id;
     fn_call := fun r => {| argument_after := r; settled := Rejected e |} |}.

(** A transform that overwrites the method of the request it is given, in
    place, and returns nothing. *)
Definition overwriting (id : nat) : HttpAgentRequestTransformFn :=
  {| fn_ref := id;
     fn_call := fun r =>
       {| argument_after :=
            {| request := <["method" := JSString "PUT"]> (request r);
               endpoint := endpoint r; body := body r |};
          settled := Fulfilled ReturnsUndefined |} |}.

End Sample.

(** * Properties *)

(** ** The asynchronous monad and the event log *)

Lemma bind_run {A B : Type} (m : Async A) (k : A -> Async B) (log : list Event) :
  (m ≫= k) log =
  match m log with
  | (log', Fulfilled a) => k a log'
  | (log', Rejected e) => (log', Rejected e)
  end.
Proof. reflexivity. Qed.

Lemma bind_mret_run {A : Type} (m : Async A) (log : list Event) :
  (m ≫= mret) log = m log.
Proof.
  rewrite bind_run. destruct (m log) as [log' [a|e]]; reflexivity.
Qed.

Lemma transport_calls_app (l1 l2 : list Event) :
  transport_calls (l1 ++ l2) = (transport_calls l1 + transport_calls l2)%nat.
Proof. unfold transport_calls. rewrite filter_app, length_app. reflexivity. Qed.

Lemma transport_calls_fetch (log : list Event) (url : string) (init : gmap string JSValue) :
  transport_calls (log ++ [FetchCall url init]) = S (transport_calls log).
Proof.
  rewrite transport_calls_app.
  change (transport_calls [FetchCall url init]) with 1%nat. lia.
Qed.

Lemma transport_calls_warn (log : list Event) (msg : string) :
  transport_calls (log ++ [ConsoleWarn msg]) = transport_calls log.
Proof.
  rewrite transport_calls_app.
  change (transport_calls [ConsoleWarn msg]) with 0%nat. lia.
Qed.

Lemma transform_calls_app (l1 l2 : list Event) :
  transform_calls (l1 ++ l2) = (transform_calls l1 ++ transform_calls l2)%list.
Proof. apply omap_app. Qed.

Lemma fetch_calls_app (l1 l2 : list Event) :
  fetch_calls (l1 ++ l2) = (fetch_calls l1 ++ fetch_calls l2)%list.
Proof. apply omap_app. Qed.

(** ** The retry loop, one attempt at a time *)

(** The body of [_requestAndRetry], for any [request]. *)
Lemma requestAndRetry_run (c : HttpClient) (request : Async Response) (tries : nat)
    (log : list Event) :
  _requestAndRetry c request tries log =
  if (_retryTimes c <? tries)%nat && negb (_retryTimes c =? 0)%nat
  then (log, Rejected (Error (exceeded_message c)))
  else
    match request log with
    | (log1, Rejected e) => (log1, Rejected e)
    | (log1, Fulfilled response) =>
        if ok response then (log1, Fulfilled response)
        else if decide (tries < _retryTimes c)%nat
        then _requestAndRetry c request (tries + 1)
               (log1 ++ [ConsoleWarn (errorMessage response +:+ "  Retrying request.")])%list
        else (log1, Rejected (Error (errorMessage response)))
    end.
Proof.
  etransitivity;
    [exact (f_equal (fun f => f log) (_requestAndRetry_equation_1 c request tries))|].
  cbv beta.
  destruct ((_retryTimes c <? tries)%nat && negb (_retryTimes c =? 0)%nat); [reflexivity|].
  rewrite bind_run. destruct (request log) as [log1 [response|e]]; [|reflexivity].
  destruct (ok response); cbn [negb]; [reflexivity|].
  destruct (decide (tries < _retryTimes c)%nat); reflexivity.
Qed.

Ltac events_ok :=
  repeat match goal with
         | |- Forall _ [] => constructor
         | |- Forall _ (_ :: _) => constructor
         end;
  first [ left; eexists; split; reflexivity
        | right; eexists; reflexivity ].

Section RetryLoop.
Context `{Platform}.
Variables (c : HttpClient) (url : string) (init : gmap string JSValue).

Lemma fetch_at_run (log : list Event) :
  fetch_at c url init log =
  match URL_new url (Some (_host c)) with
  | Fulfilled u =>
      ((log ++ [FetchCall (URL_href u) init])%list,
       _fetch c (transport_calls log) (URL_href u) init)
  | Rejected e => (log, Rejected e)
  end.
Proof.
  unfold fetch_at. rewrite bind_run. unfold settle.
  destruct (URL_new url (Some (_host c))); reflexivity.
Qed.

(** Every event the loop adds is a transport call with the URL and [init]
    of the request, or a warning. *)
Lemma retry_events (d : nat) :
  forall (tries : nat) (log : list Event),
    (_retryTimes c - tries)%nat = d ->
    exists added : list Event,
      (_requestAndRetry c (fetch_at c url init) tries log).1 = (log ++ added)%list /\
      Forall (fun e =>
        (exists u, URL_new url (Some (_host c)) = Fulfilled u /\ e = FetchCall (URL_href u) init) \/
        (exists msg, e = ConsoleWarn msg)) added.
Proof.
  induction d as [|d IH]; intros tries log Hd;
    rewrite requestAndRetry_run, fetch_at_run;
    (destruct (_ && _); [exists []; rewrite app_nil_r; by split|]);
    (destruct (URL_new url (Some (_host c))) as [u|e] eqn:Hu;
      [|exists []; rewrite app_nil_r; by split]);
    (destruct (_fetch c _ _ _) as [r|e];
      [|exists [FetchCall (URL_href u) init]; split; [done|]; events_ok]);
    (destruct (ok r);
      [exists [FetchCall (URL_href u) init]; split; [done|]; events_ok|]);
    (destruct (decide _) as [Hlt|Hge];
      [|exists [FetchCall (URL_href u) init]; split; [done|]; events_ok]).
  - lia.
  - destruct (IH (tries + 1)%nat
      ((log ++ [FetchCall (URL_href u) init]) ++
       [ConsoleWarn (errorMessage r +:+ "  Retrying request.")])%list) as (added & -> & Hall);
      [lia|].
    exists ([FetchCall (URL_href u) init;
             ConsoleWarn (errorMessage r +:+ "  Retrying request.")] ++ added)%list.
    split; [by rewrite <- !app_assoc|].
    apply Forall_app; split; [|done]. events_ok.
Qed.

(** At most [_retryTimes - tries + 1] transport calls are made. *)
Lemma retry_bound (d : nat) :
  forall (tries : nat) (log : list Event),
    (_retryTimes c - tries)%nat = d ->
    (transport_calls (_requestAndRetry c (fetch_at c url init) tries log).1
       <= transport_calls log + d + 1)%nat.
Proof.
  induction d as [|d IH]; intros tries log Hd;
    rewrite requestAndRetry_run, fetch_at_run;
    (destruct (_ && _); [cbn [fst]; lia|]);
    (destruct (URL_new url (Some (_host c))) as [u|e]; [|cbn [fst]; lia]);
    (destruct (_fetch c _ _ _) as [r|e];
      [|cbn [fst]; rewrite transport_calls_fetch; lia]);
    (destruct (ok r); [cbn [fst]; rewrite transport_calls_fetch; lia|]);
    (destruct (decide _) as [Hlt|Hge];
      [|cbn [fst]; rewrite transport_calls_fetch; lia]).
  - lia.
  - etransitivity; [apply IH; lia|].
    rewrite transport_calls_warn, transport_calls_fetch. lia.
Qed.

Variable u : URL.
Hypothesis resolved : URL_new url (Some (_host c)) = Fulfilled u.

(** One attempt, when the attempt counter is within the budget. *)
Lemma attempt_run (tries : nat) (log : list Event) :
  (tries <= _retryTimes c)%nat ->
  _requestAndRetry c (fetch_at c url init) tries log =
  let log1 := (log ++ [FetchCall (URL_href u) init])%list in
  match _fetch c (transport_calls log) (URL_href u) init with
  | Rejected e => (log1, Rejected e)
  | Fulfilled response =>
      if ok response then (log1, Fulfilled response)
      else if decide (tries < _retryTimes c)%nat
      then _requestAndRetry c (fetch_at c url init) (tries + 1)
             (log1 ++ [ConsoleWarn (errorMessage response +:+ "  Retrying request.")])%list
      else (log1, Rejected (Error (errorMessage response)))
  end.
Proof.
  intros Hle. rewrite requestAndRetry_run, fetch_at_run, resolved.
  replace (_retryTimes c <? tries)%nat with false
    by (symmetry; apply Nat.ltb_ge; lia).
  reflexivity.
Qed.

(** After [k] non-2xx answers within the budget, the answer to the next
    call, a 2xx response or a failure of the call itself, ends the loop and
    is its result. *)
Lemma retry_settles (k : nat) :
  forall (tries : nat) (log : list Event),
    (tries + k <= _retryTimes c)%nat ->
    refuses (_fetch c) (URL_href u) init (transport_calls log) k ->
    match _fetch c (transport_calls log + k) (URL_href u) init with
    | Fulfilled r => ok r = true
    | Rejected _ => True
    end ->
    (_requestAndRetry c (fetch_at c url init) tries log).2 =
      _fetch c (transport_calls log + k) (URL_href u) init /\
    transport_calls (_requestAndRetry c (fetch_at c url init) tries log).1 =
      (transport_calls log + k + 1)%nat.
Proof.
  induction k as [|k IH]; intros tries log Hle Hrefused Hlast.
  - rewrite attempt_run by lia. cbv zeta.
    rewrite Nat.add_0_r in *.
    destruct (_fetch c (transport_calls log) (URL_href u) init) as [r|e].
    + rewrite Hlast. cbn [fst snd]. rewrite transport_calls_fetch. split; [done|lia].
    + cbn [fst snd]. rewrite transport_calls_fetch. split; [done|lia].
  - rewrite attempt_run by lia. cbv zeta.
    destruct (Hrefused 0%nat) as (r0 & Hr0 & Hok0); [lia|].
    rewrite Nat.add_0_r in Hr0. rewrite Hr0, Hok0.
    destruct (decide (tries < _retryTimes c)%nat) as [_|Hge]; [|lia].
    specialize (IH (tries + 1)%nat
      ((log ++ [FetchCall (URL_href u) init]) ++
       [ConsoleWarn (errorMessage r0 +:+ "  Retrying request.")])%list).
    rewrite transport_calls_warn, transport_calls_fetch in IH.
    replace (S (transport_calls log) + k)%nat with (transport_calls log + S k)%nat in IH by lia.
    destruct IH as [IH1 IH2]; [lia| |done|].
    + intros i Hi. destruct (Hrefused (S i)) as (r & Hr & Hok); [lia|].
      exists r. split; [|done]. rewrite <- Hr. f_equal. lia.
    + split; [done|]. rewrite IH2. lia.
Qed.

(** When every answer is a non-2xx response, the loop stops after
    [_retryTimes - tries + 1] transport calls and raises the error built
    from the last response. *)
Lemma retry_exhausted (d : nat) :
  forall (tries : nat) (log : list Event),
    (tries <= _retryTimes c)%nat ->
    (_retryTimes c - tries)%nat = d ->
    refuses (_fetch c) (URL_href u) init (transport_calls log) (d + 1) ->
    exists r : Response,
      _fetch c (transport_calls log + d) (URL_href u) init = Fulfilled r /\
      (_requestAndRetry c (fetch_at c url init) tries log).2 =
        Rejected (Error (errorMessage r)) /\
      transport_calls (_requestAndRetry c (fetch_at c url init) tries log).1 =
        (transport_calls log + d + 1)%nat.
Proof.
  induction d as [|d IH]; intros tries log Hle Hd Hrefused;
    rewrite attempt_run by lia; cbv zeta;
    destruct (Hrefused 0%nat) as (r0 & Hr0 & Hok0); try lia;
    rewrite Nat.add_0_r in Hr0; rewrite Hr0, Hok0.
  - destruct (decide (tries < _retryTimes c)%nat) as [Hlt|_]; [lia|].
    exists r0. rewrite Nat.add_0_r. cbn [fst snd]. rewrite transport_calls_fetch.
    repeat split; [done|lia].
  - destruct (decide (tries < _retryTimes c)%nat) as [_|Hge]; [|lia].
    specialize (IH (tries + 1)%nat
      ((log ++ [FetchCall (URL_href u) init]) ++
       [ConsoleWarn (errorMessage r0 +:+ "  Retrying request.")])%list).
    rewrite transport_calls_warn, transport_calls_fetch in IH.
    destruct IH as (r & Hr & Hres & Hcalls); [lia|lia| |].
    + intros i Hi. destruct (Hrefused (S i)) as (r & Hr & Hok); [lia|].
      exists r. split; [|done]. rewrite <- Hr. f_equal. lia.
    + exists r. repeat split; [|done|lia].
      rewrite <- Hr. f_equal. lia.
Qed.

End RetryLoop.

(** ** The promise chain of [_transform] *)

Lemma transport_calls_transform_events (log : list Event) (calls : list (nat * HttpRequest)) :
  transport_calls (log ++ transform_events calls) = transport_calls log.
Proof.
  rewrite transport_calls_app.
  assert (transport_calls (transform_events calls) = 0%nat) as ->; [|lia].
  induction calls as [|[fn r] calls IH]; [reflexivity|exact IH].
Qed.

Lemma then_step_run (fn : HttpAgentRequestTransformFn) (f : Flow) (log : list Event) :
  then_step fn f log =
  ((log ++ [TransformCall (fn_ref fn) (current f)])%list,
   match settled (fn_call fn (current f)) with
   | Rejected e => Rejected e
   | Fulfilled res =>
       Fulfilled
         {| origin := match other f with
                      | None => argument_after (fn_call fn (current f))
                      | Some _ => origin f
                      end;
            other := match res with
                     | ReturnsFresh r2 => Some r2
                     | _ => match other f with
                            | None => None
                            | Some _ => Some (argument_after (fn_call fn (current f)))
                            end
                     end |}
   end).
Proof.
  unfold then_step. rewrite bind_run. cbn [emit]. rewrite bind_run. unfold settle.
  destruct (settled (fn_call fn (current f))) as [[| |r2]|e], (other f); reflexivity.
Qed.

Lemma then_chain_rejected (pipeline : list HttpAgentRequestTransformFn) :
  forall (p : Async Flow) (log log0 : list Event) (e : JSError),
    p log = (log0, Rejected e) ->
    then_chain pipeline p log = (log0, Rejected e).
Proof.
  induction pipeline as [|fn pipeline IH]; intros p log log0 e Hp; [exact Hp|].
  cbn [then_chain]. apply IH. rewrite bind_run, Hp. reflexivity.
Qed.

(** The chain invokes the transforms one after the other in pipeline order,
    each on the request the previous step produced. *)
Lemma then_chain_thread (pipeline : list HttpAgentRequestTransformFn) :
  forall (p : Async Flow) (log log0 : list Event) (f : Flow),
    p log = (log0, Fulfilled f) ->
    (then_chain pipeline p log).1 =
      (log0 ++ transform_events (thread pipeline (current f)).1)%list /\
    current <$> (then_chain pipeline p log).2 = (thread pipeline (current f)).2.
Proof.
  induction pipeline as [|fn pipeline IH]; intros p log log0 f Hp.
  - cbn [then_chain thread]. rewrite Hp. cbn. rewrite app_nil_r. done.
  - cbn [then_chain thread].
    assert ((p ≫= then_step fn) log = then_step fn f log0) as Hstep
      by (rewrite bind_run, Hp; reflexivity).
    rewrite then_step_run in Hstep.
    destruct (settled (fn_call fn (current f))) as [res|e] eqn:Hres.
    + destruct (IH _ _ _ _ Hstep) as [IH1 IH2].
      assert (current
        {| origin := match other f with
                     | None => argument_after (fn_call fn (current f))
                     | Some _ => origin f
                     end;
           other := match res with
                    | ReturnsFresh r2 => Some r2
                    | _ => match other f with
                           | None => None
                           | Some _ => Some (argument_after (fn_call fn (current f)))
                           end
                    end |} = produced fn (current f)) as Hcur.
      { unfold produced. rewrite Hres. unfold current at 1. cbn [origin other].
        destruct res, (other f); reflexivity. }
      rewrite Hcur in IH1, IH2.
      destruct (thread pipeline (produced fn (current f))) as [calls out].
      cbn [fst snd] in *. rewrite IH1, IH2. split; [|done].
      rewrite <- app_assoc. reflexivity.
    + rewrite (then_chain_rejected _ _ _ _ _ Hstep). cbn. done.
Qed.

(** When no transform of the pipeline writes to its argument, the object
    [_transform] was given holds at the end what it held at the start. *)
Lemma then_chain_origin (pipeline : list HttpAgentRequestTransformFn) :
  (forall fn r, fn ∈ pipeline -> argument_after (fn_call fn r) = r) ->
  forall (p : Async Flow) (log log0 log1 : list Event) (f f1 : Flow),
    p log = (log0, Fulfilled f) ->
    then_chain pipeline p log = (log1, Fulfilled f1) ->
    origin f1 = origin f.
Proof.
  induction pipeline as [|fn pipeline IH]; intros Hpure p log log0 log1 f f1 Hp Hrun.
  - cbn [then_chain] in Hrun. congruence.
  - cbn [then_chain] in Hrun.
    assert ((p ≫= then_step fn) log = then_step fn f log0) as Hstep
      by (rewrite bind_run, Hp; reflexivity).
    rewrite then_step_run in Hstep.
    destruct (settled (fn_call fn (current f))) as [res|e].
    + rewrite (IH (fun fn' r Hin => Hpure fn' r (list_elem_of_further _ _ _ Hin))
                  _ _ _ _ _ _ Hstep Hrun).
      cbn [origin]. destruct (other f) eqn:Hother; [reflexivity|].
      rewrite Hpure by apply list_elem_of_here.
      unfold current. rewrite Hother. reflexivity.
    + rewrite (then_chain_rejected _ _ _ _ _ Hstep) in Hrun. discriminate.
Qed.

Section Run.
Context `{Platform}.

Lemma httpGet_run (c : HttpClient) (endpoint : string) (body : JSRecord) (log : list Event) :
  httpGet c endpoint body log =
  _requestAndRetry c
    (fetch_at c (query_url endpoint body) (get_init c (get_headers c))) 0 log.
Proof. unfold httpGet. apply bind_mret_run. Qed.

Lemma httpPost_run (c : HttpClient) (endpoint : string) (body : JSRecord) (log : list Event) :
  httpPost c endpoint body log =
  match _transform c (post_payload c endpoint body) log with
  | (log1, Fulfilled flow) =>
      _requestAndRetry c
        (fetch_at c endpoint (post_init c (origin flow) (current flow))) 0 log1
  | (log1, Rejected e) => (log1, Rejected e)
  end.
Proof.
  unfold httpPost. rewrite bind_run.
  destruct (_transform c (post_payload c endpoint body) log) as [log1 [flow|e]];
    [apply bind_mret_run|reflexivity].
Qed.

Lemma transform_run (c : HttpClient) (request : HttpRequest) (log : list Event) :
  (_transform c request log).1 =
    (log ++ transform_events (thread (_pipeline c) request).1)%list /\
  current <$> (_transform c request log).2 = (thread (_pipeline c) request).2.
Proof.
  unfold _transform.
  exact (then_chain_thread (_pipeline c) _ log log {| origin := request; other := None |} eq_refl).
Qed.

End Run.

(** ** C1: the retry budget *)

(** C1.  With a retry budget [n > 0], one logical request makes at most
    [n + 1] transport calls.  If the first [k <= n] answers are non-2xx
    responses and the next one is a 2xx response, exactly [k + 1] calls are
    made and that response is returned (budget 2, two refusals: 3 calls).
    If every answer is a non-2xx response, exactly [n + 1] calls are made and
    an error is raised, built from the last response (budget 2: 3 calls,
    budget 3: 4 calls).  [httpGet] and [httpPost] return what the loop
    returns. *)
Theorem retry_budget `{Platform} (c : HttpClient) (n : nat) :
  _retryTimes c = n ->
  (0 < n)%nat ->
  (forall url init log,
     (transport_calls (_requestAndRetry c (fetch_at c url init) 0 log).1
        <= transport_calls log + (n + 1))%nat) /\
  (forall url init u log,
     URL_new url (Some (_host c)) = Fulfilled u ->
     let run := _requestAndRetry c (fetch_at c url init) 0 log in
     let first := transport_calls log in
     (forall k r,
        (k <= n)%nat ->
        refuses (_fetch c) (URL_href u) init first k ->
        _fetch c (first + k)%nat (URL_href u) init = Fulfilled r ->
        ok r = true ->
        run.2 = Fulfilled r /\ transport_calls run.1 = (first + (k + 1))%nat) /\
     (refuses (_fetch c) (URL_href u) init first (n + 1) ->
        (exists r,
           _fetch c (first + n)%nat (URL_href u) init = Fulfilled r /\
           run.2 = Rejected (Error (errorMessage r))) /\
        transport_calls run.1 = (first + (n + 1))%nat)) /\
  (forall endpoint body log,
     httpGet c endpoint body log =
     _requestAndRetry c
       (fetch_at c (query_url endpoint body) (get_init c (get_headers c))) 0 log) /\
  (forall endpoint body log log1,
     (forall flow,
        _transform c (post_payload c endpoint body) log = (log1, Fulfilled flow) ->
        httpPost c endpoint body log =
          _requestAndRetry c
            (fetch_at c endpoint (post_init c (origin flow) (current flow))) 0 log1 /\
        transport_calls log1 = transport_calls log) /\
     (forall e,
        _transform c (post_payload c endpoint body) log = (log1, Rejected e) ->
        httpPost c endpoint body log = (log1, Rejected e) /\
        transport_calls log1 = transport_calls log)).
Proof.
  intros Hn Hpos. split; [|split; [|split]].
  - intros url init log.
    pose proof (retry_bound c url init (_retryTimes c - 0) 0 log eq_refl). lia.
  - intros url init u log Hu run first. subst run first. split.
    + intros k r Hk Hrefused Hr Hok.
      destruct (retry_settles c url init u Hu k 0 log) as [H1 H2];
        [lia|done|by rewrite Hr|].
      rewrite H1, H2, Hr. split; [done|lia].
    + intros Hrefused.
      destruct (retry_exhausted c url init u Hu n 0 log) as (r & Hr & Hres & Hcalls);
        [lia|lia|done|].
      split; [by exists r|]. rewrite Hcalls. lia.
  - intros. apply httpGet_run.
  - intros endpoint body log log1.
    pose proof (transform_run c (post_payload c endpoint body) log) as [Hlog _].
    split.
    + intros flow Htr. rewrite httpPost_run, Htr. split; [done|].
      rewrite Htr in Hlog. cbn [fst] in Hlog. rewrite Hlog.
      apply transport_calls_transform_events.
    + intros e Htr. rewrite httpPost_run, Htr. split; [done|].
      rewrite Htr in Hlog. cbn [fst] in Hlog. rewrite Hlog.
      apply transport_calls_transform_events.
Qed.

Section RetryBudgetSample.
#[local] Existing Instance Sample.platform.

(** Budget 2 on the sample platform: two refusals and then a 2xx
    response, and a server that refuses always. *)
Lemma retry_budget_witness :
  let up := Sample.client (Sample.flaky 2) 2 None [] in
  let dn := Sample.client Sample.down 2 None [] in
  (_retryTimes up = 2%nat /\ (0 < 2)%nat) /\
  ((httpGet up "/status" [] []).2 = Fulfilled (Sample.response 200 "OK" "done") /\
   transport_calls (httpGet up "/status" [] []).1 = 3%nat) /\
  ((httpPost up "/call" [] []).2 = Fulfilled (Sample.response 200 "OK" "done") /\
   transport_calls (httpPost up "/call" [] []).1 = 3%nat) /\
  ((httpGet dn "/status" [] []).2 =
     Rejected (Error (errorMessage (Sample.response 503 "Service Unavailable" "busy"))) /\
   transport_calls (httpGet dn "/status" [] []).1 = 3%nat).
Proof.
  intros up dn.
  assert (Hup : _retryTimes up = 2%nat /\ (0 < 2)%nat) by (split; [reflexivity|lia]).
  destruct (retry_budget up 2 (proj1 Hup) (proj2 Hup))
    as (_ & Hloop & Hget & Hpost).
  destruct (retry_budget dn 2 eq_refl (proj2 Hup))
    as (_ & Hloop' & Hget' & _).
  assert (Hflaky : forall url init first,
            (first = 0)%nat -> refuses (Sample.flaky 2) url init first 2).
  { intros url init first -> i Hi. exists (Sample.response 503 "Service Unavailable" "busy").
    destruct i as [|[|i]]; [done|done|lia]. }
  assert (Hdown : forall url init first, refuses Sample.down url init first 3).
  { intros url init first i Hi. by exists (Sample.response 503 "Service Unavailable" "busy"). }
  split; [exact Hup|]. split; [|split].
  - rewrite Hget.
    destruct (Hloop (query_url "/status" []) (get_init up (get_headers up))
                _ [] eq_refl) as (Hok & _).
    destruct (Hok 2%nat (Sample.response 200 "OK" "done")) as [H1 H2];
      [lia|by apply Hflaky|reflexivity|reflexivity|].
    split; [exact H1|exact H2].
  - destruct (proj1 (Hpost "/call" [] [] []) _ eq_refl) as [-> _].
    destruct (Hloop "/call"
                (post_init up (post_payload up "/call" []) (post_payload up "/call" []))
                _ [] eq_refl) as (Hok & _).
    destruct (Hok 2%nat (Sample.response 200 "OK" "done")) as [H1 H2];
      [lia|by apply Hflaky|reflexivity|reflexivity|].
    split; [exact H1|exact H2].
  - rewrite Hget'.
    destruct (Hloop' (query_url "/status" []) (get_init dn (get_headers dn))
                _ [] eq_refl) as (_ & Hex).
    destruct (Hex (Hdown _ _ _)) as [(r & Hr & Hres) Hcalls].
    split; [|exact Hcalls].
    rewrite Hres. injection Hr as <-. reflexivity.
Defined.

(** Budget 3 (the default) against a server that refuses always: four
    transport calls, then the error. *)
Lemma budget_three_makes_four_calls :
  let run := httpGet (Sample.client Sample.down 3 None []) "/status" [] [] in
  transport_calls run.1 = 4%nat /\
  run.2 = Rejected (Error (errorMessage (Sample.response 503 "Service Unavailable" "busy"))).
Proof. split; reflexivity. Qed.

End RetryBudgetSample.

(** ** C2: a budget of zero *)

(** C2, as stated, fails: with a budget of 0, a server that refuses once and
    would answer 200 to a second call gets no second call; the loop raises
    after the first. *)
Lemma zero_budget_counterexample :
  let c := Sample.client (Sample.flaky 1) 0 None [] in
  let run := @httpGet Sample.platform c "/status" [] [] in
  _retryTimes c = 0%nat /\
  refuses (_fetch c) "https://astrox.app/status" (get_init c []) 0 1 /\
  _fetch c 1%nat "https://astrox.app/status" (get_init c []) =
    Fulfilled (Sample.response 200 "OK" "done") /\
  run.2 = Rejected (Error (errorMessage (Sample.response 503 "Service Unavailable" "busy"))) /\
  transport_calls run.1 = 1%nat.
Proof.
  cbv zeta. split; [reflexivity|]. split; [|split; [reflexivity|split; reflexivity]].
  intros i Hi. exists (Sample.response 503 "Service Unavailable" "busy").
  destruct i; [done|lia].
Qed.

(** C2, amended.  With a budget of 0 nothing is retried: one logical
    request makes exactly one transport call; a 2xx response is returned, a
    non-2xx response raises the error built from it, and a call that does
    not complete raises its own failure. *)
Theorem zero_budget_single_attempt `{Platform} (c : HttpClient)
    (url : string) (init : gmap string JSValue) (u : URL) (log : list Event) :
  _retryTimes c = 0%nat ->
  URL_new url (Some (_host c)) = Fulfilled u ->
  let run := _requestAndRetry c (fetch_at c url init) 0 log in
  transport_calls run.1 = (transport_calls log + 1)%nat /\
  run.2 =
    match _fetch c (transport_calls log) (URL_href u) init with
    | Fulfilled r => if ok r then Fulfilled r else Rejected (Error (errorMessage r))
    | Rejected e => Rejected e
    end.
Proof.
  intros Hzero Hu run. subst run.
  rewrite (attempt_run c url init u Hu) by lia. cbv zeta.
  destruct (_fetch c (transport_calls log) (URL_href u) init) as [r|e].
  - destruct (ok r).
    + cbn [fst snd]. rewrite transport_calls_fetch. split; [lia|done].
    + destruct (decide (0 < _retryTimes c)%nat) as [Hlt|_]; [lia|].
      cbn [fst snd]. rewrite transport_calls_fetch. split; [lia|done].
  - cbn [fst snd]. rewrite transport_calls_fetch. split; [lia|done].
Qed.

Section ZeroBudgetSample.
#[local] Existing Instance Sample.platform.

Lemma zero_budget_single_attempt_witness :
  let c := Sample.client (Sample.flaky 1) 0 None [] in
  let run := _requestAndRetry c (fetch_at c "/status" ∅) 0 [] in
  (_retryTimes c = 0%nat /\
   URL_new "/status" (Some (_host c)) = Fulfilled (Sample.with_path (_host c) "/status")) /\
  transport_calls run.1 = 1%nat /\
  run.2 = Rejected (Error (errorMessage (Sample.response 503 "Service Unavailable" "busy"))).
Proof.
  intros c run.
  assert (Hyp : _retryTimes c = 0%nat /\
                URL_new "/status" (Some (_host c)) =
                  Fulfilled (Sample.with_path (_host c) "/status"))
    by (split; reflexivity).
  split; [exact Hyp|].
  exact (zero_budget_single_attempt c "/status" ∅ _ [] (proj1 Hyp) (proj2 Hyp)).
Defined.

End ZeroBudgetSample.

(** ** C6: a transport call that does not complete *)

(** C6.  Whatever the budget, when a transport call does not complete, at
    the first attempt ([k = 0]) or after [k] non-2xx answers, its failure is
    the result of the loop and no further transport call is made. *)
Theorem transport_failure_not_retried `{Platform} (c : HttpClient)
    (url : string) (init : gmap string JSValue) (u : URL) (log : list Event)
    (k : nat) (e : JSError) :
  URL_new url (Some (_host c)) = Fulfilled u ->
  (k <= _retryTimes c)%nat ->
  refuses (_fetch c) (URL_href u) init (transport_calls log) k ->
  _fetch c (transport_calls log + k)%nat (URL_href u) init = Rejected e ->
  let run := _requestAndRetry c (fetch_at c url init) 0 log in
  run.2 = Rejected e /\
  transport_calls run.1 = (transport_calls log + k + 1)%nat.
Proof.
  intros Hu Hk Hrefused He run. subst run.
  destruct (retry_settles c url init u Hu k 0 log) as [H1 H2];
    [lia|done|by rewrite He|].
  rewrite H1, H2, He. done.
Qed.

Section TransportFailureSample.
#[local] Existing Instance Sample.platform.

(** Budget 3, and the very first call fails: one call, no retry. *)
Lemma transport_failure_not_retried_witness :
  let c := Sample.client Sample.unreachable 3 None [] in
  let run := _requestAndRetry c (fetch_at c "/status" ∅) 0 [] in
  (URL_new "/status" (Some (_host c)) = Fulfilled (Sample.with_path (_host c) "/status") /\
   (0 <= _retryTimes c)%nat /\
   refuses (_fetch c) "https://astrox.app/status" ∅ 0 0 /\
   _fetch c 0%nat "https://astrox.app/status" ∅ = Rejected (TypeError "fetch failed")) /\
  run.2 = Rejected (TypeError "fetch failed") /\
  transport_calls run.1 = 1%nat /\
  httpGet c "/status" [] [] =
    ([FetchCall "https://astrox.app/status" (get_init c [])], Rejected (TypeError "fetch failed")).
Proof.
  intros c run.
  assert (Hyp : URL_new "/status" (Some (_host c)) =
                  Fulfilled (Sample.with_path (_host c) "/status") /\
                (0 <= _retryTimes c)%nat /\
                refuses (_fetch c) "https://astrox.app/status" ∅ 0 0 /\
                _fetch c 0%nat "https://astrox.app/status" ∅ =
                  Rejected (TypeError "fetch failed")).
  { split; [reflexivity|]. split; [apply Nat.le_0_l|]. split; [|reflexivity].
    intros i Hi. lia. }
  split; [exact Hyp|].
  destruct Hyp as (H1 & H2 & H3 & H4).
  destruct (transport_failure_not_retried c "/status" ∅ _ [] 0 _ H1 H2 H3 H4) as [R1 R2].
  split; [exact R1|]. split; [exact R2|]. reflexivity.
Defined.

End TransportFailureSample.

(** ** C5: the pipeline runs in order, and for call requests only *)

Lemma then_chain_ext (pipeline : list HttpAgentRequestTransformFn) :
  forall (p1 p2 : Async Flow) (log1 log2 : list Event),
    p1 log1 = p2 log2 ->
    then_chain pipeline p1 log1 = then_chain pipeline p2 log2.
Proof.
  induction pipeline as [|fn pipeline IH]; intros p1 p2 log1 log2 Hp; [exact Hp|].
  cbn [then_chain]. apply IH. rewrite !bind_run, Hp. reflexivity.
Qed.

Lemma transform_calls_transform_events (calls : list (nat * HttpRequest)) :
  transform_calls (transform_events calls) = calls.
Proof.
  induction calls as [|[fn r] calls IH]; [reflexivity|].
  cbn. unfold transform_calls, transform_events in IH. rewrite IH. reflexivity.
Qed.

Section Pipeline.
Context `{Platform}.

(** The retry loop invokes no transform. *)
Lemma retry_no_transform (c : HttpClient) (url : string) (init : gmap string JSValue)
    (log : list Event) :
  exists added : list Event,
    (_requestAndRetry c (fetch_at c url init) 0 log).1 = (log ++ added)%list /\
    transform_calls added = [] /\
    (forall url' init', (url', init') ∈ fetch_calls added -> init' = init).
Proof.
  destruct (retry_events c url init _ 0 log eq_refl) as (added & Hlog & Hall).
  exists added. split; [exact Hlog|]. clear Hlog.
  induction Hall as [|e added He Hall [IH1 IH2]].
  - split; [reflexivity|]. intros url' init' Hin. by apply elem_of_nil in Hin.
  - destruct He as [(u & _ & ->)|(msg & ->)]; cbn.
    + split; [exact IH1|]. intros url' init' Hin.
      apply elem_of_cons in Hin as [Heq|Hin]; [congruence|eauto].
    + split; [exact IH1|exact IH2].
Qed.

(** C5.  [_transform] invokes the transforms one after the other in
    pipeline order, the first on the request it was given and each next one
    on the request the previous step produced; a transform that returns
    nothing (and has not written to its argument) hands the request it
    received on unchanged.  [httpGet] invokes no transform; [httpPost] runs
    the whole pipeline over the request it built, before any transport
    call. *)
Theorem pipeline_threading (c : HttpClient) (endpoint : string) (body : JSRecord)
    (log : list Event) :
  (forall request,
     (_transform c request log).1 =
       (log ++ transform_events (thread (_pipeline c) request).1)%list /\
     current <$> (_transform c request log).2 = (thread (_pipeline c) request).2) /\
  (forall fn rest request,
     _pipeline c = fn :: rest ->
     settled (fn_call fn request) = Fulfilled ReturnsUndefined ->
     argument_after (fn_call fn request) = request ->
     _transform c request log =
     _transform (set_pipeline rest c) request
       (log ++ [TransformCall (fn_ref fn) request])%list) /\
  transform_calls (httpGet c endpoint body log).1 = transform_calls log /\
  (exists rest,
     (httpPost c endpoint body log).1 =
       (log ++ transform_events (thread (_pipeline c) (post_payload c endpoint body)).1
            ++ rest)%list /\
     transform_calls rest = []).
Proof.
  split; [|split; [|split]].
  - intros request. apply transform_run.
  - intros fn rest request Hpipe Hnothing Hsame.
    unfold _transform. rewrite Hpipe. cbn [set_pipeline _pipeline then_chain].
    apply then_chain_ext. rewrite bind_run. cbn [mret Async_ret].
    rewrite then_step_run. unfold current at 1 2 3. cbn [origin other default].
    rewrite Hnothing, Hsame. reflexivity.
  - rewrite httpGet_run.
    destruct (retry_no_transform c (query_url endpoint body)
                (get_init c (get_headers c)) log) as (added & -> & Hnone & _).
    rewrite transform_calls_app, Hnone, app_nil_r. reflexivity.
  - rewrite httpPost_run.
    pose proof (transform_run c (post_payload c endpoint body) log) as [Hlog _].
    destruct (_transform c (post_payload c endpoint body) log) as [log1 [flow|e]];
      cbn [fst] in Hlog.
    + destruct (retry_no_transform c endpoint
                  (post_init c (origin flow) (current flow)) log1)
        as (added & -> & Hnone & _).
      exists added. rewrite Hlog, <- app_assoc. done.
    + exists []. cbn [fst]. rewrite Hlog, app_nil_r. done.
Qed.

End Pipeline.

Section PipelineSample.
#[local] Existing Instance Sample.platform.

(** A silent transform, then one that returns a new request: both are
    invoked, in that order, the second on the request the first received. *)
Lemma pipeline_threading_witness :
  let c := Sample.client (Sample.flaky 0) 3 None
             [Sample.silent 7; Sample.rewriting 8 (JSString "signed")] in
  let payload := post_payload c "/call" [] in
  (_pipeline c = [Sample.silent 7; Sample.rewriting 8 (JSString "signed")] /\
   settled (fn_call (Sample.silent 7) payload) = Fulfilled ReturnsUndefined /\
   argument_after (fn_call (Sample.silent 7) payload) = payload) /\
  _transform c payload [] =
    _transform (set_pipeline [Sample.rewriting 8 (JSString "signed")] c) payload
      [TransformCall 7 payload] /\
  transform_calls (httpPost c "/call" [] []).1 = [(7%nat, payload); (8%nat, payload)] /\
  transform_calls (httpGet c "/call" [] []).1 = [].
Proof.
  intros c payload.
  assert (Hyp : _pipeline c = [Sample.silent 7; Sample.rewriting 8 (JSString "signed")] /\
                settled (fn_call (Sample.silent 7) payload) = Fulfilled ReturnsUndefined /\
                argument_after (fn_call (Sample.silent 7) payload) = payload)
    by (split; [reflexivity|split; reflexivity]).
  split; [exact Hyp|].
  destruct (pipeline_threading c "/call" [] []) as (_ & Hstep & Hget & _).
  split; [|split].
  - exact (Hstep _ _ payload (proj1 Hyp) (proj1 (proj2 Hyp)) (proj2 (proj2 Hyp))).
  - reflexivity.
  - exact Hget.
Defined.

End PipelineSample.

(** ** C10: what [httpPost] sends *)

Section PostFrame.
Context `{Platform}.

(** C10.  When no transform of the pipeline writes to its argument, the
    [init] object of every transport call of [httpPost] is the request
    [httpPost] built, over the call options, with the [body] of the
    pipeline's output: its method is POST and its headers are the built
    ones, whatever [request] the pipeline's output carries. *)
Theorem post_sends_built_request (c : HttpClient) (endpoint : string) (body0 : JSRecord)
    (log log1 : list Event) (flow : Flow) :
  (forall fn r, fn ∈ _pipeline c -> argument_after (fn_call fn r) = r) ->
  _transform c (post_payload c endpoint body0) log = (log1, Fulfilled flow) ->
  let built := post_payload c endpoint body0 in
  let init := <["body" := body (current flow)]> (request built ∪ default ∅ (_callOptions c)) in
  httpPost c endpoint body0 log = _requestAndRetry c (fetch_at c endpoint init) 0 log1 /\
  (exists added,
     (httpPost c endpoint body0 log).1 = (log1 ++ added)%list /\
     forall url' init', (url', init') ∈ fetch_calls added -> init' = init) /\
  init !! "method" = Some (JSString "POST") /\
  init !! "headers" = request built !! "headers" /\
  is_Some (request built !! "headers") /\
  init !! "body" = Some (body (current flow)).
Proof.
  intros Hpure Htr built init.
  assert (origin flow = built) as Horigin.
  { unfold _transform in Htr.
    exact (then_chain_origin (_pipeline c) Hpure _ log log log1
             {| origin := built; other := None |} flow eq_refl Htr). }
  assert (httpPost c endpoint body0 log =
          _requestAndRetry c (fetch_at c endpoint init) 0 log1) as Hrun.
  { rewrite httpPost_run, Htr, Horigin. reflexivity. }
  split; [exact Hrun|]. split; [|subst init built; cbn [post_payload request]; repeat split].
  - rewrite Hrun.
    destruct (retry_no_transform c endpoint init log1) as (added & Hlog & _ & Hinit).
    exists added. split; [exact Hlog|exact Hinit].
  - rewrite lookup_insert_ne by done. apply lookup_union_Some_l.
    apply lookup_insert_eq.
  - rewrite lookup_insert_ne by done. apply lookup_union_l'.
    rewrite lookup_insert_ne by done. rewrite lookup_singleton_eq. eauto.
  - rewrite lookup_insert_ne by done. rewrite lookup_singleton_eq. eauto.
  - apply lookup_insert_eq.
Qed.

End PostFrame.

Section PostFrameSample.
#[local] Existing Instance Sample.platform.

(** A transform that returns a new request with method PUT and no headers:
    the call still goes out as a POST with the built headers, and with the
    new body. *)
Lemma post_sends_built_request_witness :
  let c := Sample.client (Sample.flaky 0) 3 None [Sample.rewriting 8 (JSString "signed")] in
  let built := post_payload c "/call" [] in
  let out := {| request := {[ "method" := JSString "PUT" ]}; endpoint := "/call";
                body := JSString "signed" |} in
  ((forall fn r, fn ∈ _pipeline c -> argument_after (fn_call fn r) = r) /\
   _transform c built [] =
     ([TransformCall 8 built], Fulfilled {| origin := built; other := Some out |})) /\
  fetch_calls (httpPost c "/call" [] []).1 =
    [("https://astrox.app/call",
      {[ "method" := JSString "POST";
         "headers" := JSHeaders [("Content-Type", JSString "application/json")];
         "body" := JSString "signed" ]})].
Proof.
  intros c built out.
  assert (Hyp : (forall fn r, fn ∈ _pipeline c -> argument_after (fn_call fn r) = r) /\
                _transform c built [] =
                  ([TransformCall 8 built],
                   Fulfilled {| origin := built; other := Some out |})).
  { split; [|reflexivity].
    intros fn r Hin. apply list_elem_of_singleton in Hin. subst fn. reflexivity. }
  split; [exact Hyp|].
  destruct (post_sends_built_request c "/call" [] [] _ _ (proj1 Hyp) (proj2 Hyp))
    as (Hrun & _).
  rewrite Hrun. vm_compute. reflexivity.
Defined.

(** The hypothesis of C10 is needed: a transform that overwrites the method
    of the request it is given changes the method that is sent. *)
Lemma overwriting_transform_changes_method :
  let c := Sample.client (Sample.flaky 0) 3 None [Sample.overwriting 9] in
  fetch_calls (httpPost c "/call" [] []).1 =
    [("https://astrox.app/call",
      {[ "method" := JSString "PUT";
         "headers" := JSHeaders [("Content-Type", JSString "application/json")];
         "body" := JSObject [] ]})].
Proof. vm_compute. reflexivity. Qed.

End PostFrameSample.

(** ** Construction *)

Lemma append_nil_r (s : string) : s +:+ "" = s.
Proof.
  induction s as [|a s IH]; [reflexivity|].
  change (String a s +:+ "") with (String a (s +:+ "")). by rewrite IH.
Qed.

Lemma append_assoc (s1 s2 s3 : string) : (s1 +:+ s2) +:+ s3 = s1 +:+ (s2 +:+ s3).
Proof.
  induction s1 as [|a s1 IH]; [reflexivity|].
  change ((String a s1 +:+ s2) +:+ s3) with (String a ((s1 +:+ s2) +:+ s3)).
  change (String a s1 +:+ s2 +:+ s3) with (String a (s1 +:+ s2 +:+ s3)).
  by rewrite IH.
Qed.

Section Construction.
Context `{Platform}.

(** The transport primitive the constructor settles on. *)
Lemma constructor_run (options : HttpAgentOptions) :
  constructor options =
  match (match fetch options with Some f => Fulfilled f | None => getDefaultFetch end) with
  | Rejected e => Rejected e
  | Fulfilled f =>
      match resolve_host options with
      | Rejected e => Rejected e
      | Fulfilled u =>
          Fulfilled
            {| _pipeline := [];
               _fetch := f;
               _fetchOptions := fetchOptions options;
               _callOptions := callOptions options;
               _timeDiffMsecs := 0;
               _host := if endsWith (hostname u) API_SUB_DOMAIN
                        then set_hostname API_DOMAIN u else u;
               _credentials := credential_string <$> credentials options;
               _rootKeyFetched := false;
               _retryTimes := match retryTimes options with Some n => n | None => 3%nat end |}
      end
  end.
Proof.
  unfold constructor.
  destruct (match fetch options with Some f => Fulfilled f | None => getDefaultFetch end);
    [|reflexivity].
  cbn. destruct (resolve_host options); reflexivity.
Qed.

Lemma constructor_fields (options : HttpAgentOptions) (c : HttpClient) :
  constructor options = Fulfilled c ->
  _pipeline c = [] /\
  _fetchOptions c = fetchOptions options /\
  _callOptions c = callOptions options /\
  _credentials c = credential_string <$> credentials options /\
  _retryTimes c = match retryTimes options with Some n => n | None => 3%nat end.
Proof.
  rewrite constructor_run.
  destruct (match fetch options with Some f => Fulfilled f | None => getDefaultFetch end);
    [|discriminate].
  destruct (resolve_host options); [|discriminate].
  intros [= <-]. repeat split.
Qed.

(** ** C8: the managed sub-domain is rewritten to the apex domain *)

(** C8.  When a transport primitive is available and the host resolves to a
    URL [u], the client is constructed; if the hostname of [u] ends with
    [.astrox.app], the client's host is [u] with the hostname [astrox.app],
    otherwise it is [u].  In particular a resolved hostname [x.astrox.app]
    becomes [astrox.app]. *)
Theorem host_canonicalisation (options : HttpAgentOptions) (f : Fetch) (u : URL) :
  match fetch options with Some f => Fulfilled f | None => getDefaultFetch end = Fulfilled f ->
  resolve_host options = Fulfilled u ->
  exists c : HttpClient,
    constructor options = Fulfilled c /\
    (endsWith (hostname u) ".astrox.app" = true ->
       _host c = set_hostname "astrox.app" u /\ hostname (_host c) = "astrox.app") /\
    (endsWith (hostname u) ".astrox.app" = false -> _host c = u) /\
    (hostname u = "x.astrox.app" -> hostname (_host c) = "astrox.app").
Proof.
  intros Hf Hu. rewrite constructor_run, Hf, Hu. eexists. split; [reflexivity|].
  cbn [_host]. change API_SUB_DOMAIN with ".astrox.app". change API_DOMAIN with "astrox.app".
  split; [|split].
  - intros ->. done.
  - intros ->. done.
  - intros Hx. rewrite Hx. reflexivity.
Qed.

End Construction.

Section ConstructionSample.
#[local] Existing Instance Sample.platform.

(** [new HttpClient({ fetch, host: 'https://x.astrox.app' })] *)
Lemma host_canonicalisation_witness :
  let options := Sample.options (Sample.flaky 0) "https://x.astrox.app" None None in
  let u := {| protocol := "https:"; hostname := "x.astrox.app"; port := "";
              pathname := "/"; search := ""; hash := "" |} in
  (match fetch options with Some f => Fulfilled f | None => getDefaultFetch end
     = Fulfilled (Sample.flaky 0) /\
   resolve_host options = Fulfilled u) /\
  exists c : HttpClient,
    constructor options = Fulfilled c /\ hostname (_host c) = "astrox.app".
Proof.
  intros options u.
  assert (Hyp : match fetch options with Some f => Fulfilled f | None => getDefaultFetch end
                  = Fulfilled (Sample.flaky 0) /\
                resolve_host options = Fulfilled u) by (split; reflexivity).
  split; [exact Hyp|].
  destruct (host_canonicalisation options _ u (proj1 Hyp) (proj2 Hyp))
    as (c & Hc & Hsub & _ & _).
  exists c. split; [exact Hc|]. exact (proj2 (Hsub eq_refl)).
Defined.

End ConstructionSample.
(** ** C4 and C9: the Authorization header *)

Lemma truthy_Some (s : string) : truthy (Some s) = true <-> s <> "".
Proof.
  cbn [truthy]. destruct (String.eqb_spec s ""); cbn [negb]; split; congruence.
Qed.

(** The credential string: the name alone when there is no password or an
    empty one, [name:password] otherwise. *)
Lemma credential_string_cases (cr : Credentials) :
  credential_string cr =
  match password cr with
  | Some p => if String.eqb p "" then name cr else name cr +:+ ":" +:+ p
  | None => name cr
  end.
Proof.
  unfold credential_string. destruct (password cr) as [p|]; cbn [truthy default].
  - destruct (String.eqb p ""); cbn [negb]; [apply append_nil_r|reflexivity].
  - apply append_nil_r.
Qed.

Section Authorization.
Context `{Platform}.

(** What [httpPost] hands to [new Headers]: the content type, and an
    Authorization entry exactly when the credential string of the client is
    not empty; its value is ['Basic '] followed by what
    [Buffer.from(credential string, 'base64')] converts to as a string. *)
Lemma post_headers_init_cases (options : HttpAgentOptions) (c : HttpClient) :
  constructor options = Fulfilled c ->
  post_headers_init c =
    ("Content-Type", JSString "application/json") ::
    match credentials options with
    | Some cr =>
        if String.eqb (credential_string cr) "" then []
        else [("Authorization",
               JSString ("Basic " +:+
                         Buffer_toString (Buffer_from (credential_string cr) "base64")))]
    | None => []
    end.
Proof.
  intros Hc.
  destruct (constructor_fields options c Hc) as (_ & _ & _ & Hcred & _).
  unfold post_headers_init. rewrite Hcred.
  destruct (credentials options) as [cr|]; [|reflexivity].
  cbn [fmap option_fmap option_map truthy default].
  destruct (String.eqb (credential_string cr) ""); reflexivity.
Qed.

(** The [headers] object [httpGet] builds: the same Authorization entry, or
    nothing. *)
Lemma get_headers_cases (options : HttpAgentOptions) (c : HttpClient) :
  constructor options = Fulfilled c ->
  get_headers c =
    match credentials options with
    | Some cr =>
        if String.eqb (credential_string cr) "" then []
        else [("Authorization",
               JSString ("Basic " +:+
                         Buffer_toString (Buffer_from (credential_string cr) "base64")))]
    | None => []
    end.
Proof.
  intros Hc.
  destruct (constructor_fields options c Hc) as (_ & _ & _ & Hcred & _).
  unfold get_headers. rewrite Hcred.
  destruct (credentials options) as [cr|]; [|reflexivity].
  cbn [fmap option_fmap option_map truthy default].
  destruct (String.eqb (credential_string cr) ""); reflexivity.
Qed.

(** The [headers] of the request [httpPost] builds are made from
    [post_headers_init]. *)
Lemma post_payload_headers (c : HttpClient) (endpoint : string) (body : JSRecord) :
  request (post_payload c endpoint body) !! "headers" = Some (JSHeaders (post_headers_init c)).
Proof.
  unfold post_payload. cbn [request].
  rewrite lookup_insert_ne by discriminate. apply lookup_singleton_eq.
Qed.

(** In [{ headers, ...this._fetchOptions }] a [headers] field of
    [fetchOptions] takes the place of the mapping [httpGet] has built. *)
Lemma get_init_headers_given (c : HttpClient) (headers : JSRecord) (given : JSValue) :
  default ∅ (_fetchOptions c) !! "headers" = Some given ->
  get_init c headers !! "headers" = Some given.
Proof. intros Hgiven. unfold get_init. by apply lookup_union_Some_l. Qed.

(** In [{ ...this._callOptions, ...payload.request, ... }] the [headers] of
    the request [httpPost] has built stay, whatever [callOptions] holds. *)
Lemma post_init_headers_kept (c : HttpClient) (payload transformed : HttpRequest) (built : JSValue) :
  request payload !! "headers" = Some built ->
  post_init c payload transformed !! "headers" = Some built.
Proof.
  intros Hbuilt. unfold post_init.
  rewrite lookup_insert_ne by discriminate. by apply lookup_union_Some_l.
Qed.

End Authorization.

Section AuthorizationSample.
#[local] Existing Instance Sample.platform.

(** C4.  The Authorization header of the built POST request is not the
    base64 encoding of [name:password].  [httpPost] writes
    ['Basic ' + Buffer.from(this._credentials, 'base64')], which reads the
    credential string as base64 text and yields the bytes it decodes to.
    With the credentials [{name: 'dXNl', password: 'cg'}] the credential
    string is [dXNl:cg]; its base64 encoding is [ZFhObDpjZw==], and the
    header that is built and sent is [Basic user].  The credential string
    [user:pass], whose encoding is [dXNlcjpwYXNz], is read as the six bytes
    BA C7 AB A5 AB 2C. *)
Theorem post_authorization_is_decoded :
  let cr := {| name := "dXNl"; password := Some "cg" |} in
  let options := Sample.options (Sample.flaky 0) "https://x.astrox.app" (Some cr) None in
  let c := Sample.client (Sample.flaky 0) 3 (Some "dXNl:cg") [] in
  let encoded := "Basic " +:+ base64 (name cr +:+ ":" +:+ default "" (password cr)) in
  let built := [("Content-Type", JSString "application/json");
                ("Authorization", JSString "Basic user")] in
  constructor options = Fulfilled c /\
  encoded = "Basic ZFhObDpjZw==" /\
  post_headers_init c = built /\
  request (post_payload c "/call" []) !! "headers" = Some (JSHeaders built) /\
  fetch_calls (httpPost c "/call" [] []).1 =
    [("https://astrox.app/call",
      {[ "method" := JSString "POST"; "headers" := JSHeaders built;
         "body" := JSObject [] ]})] /\
  Buffer_from "user:pass" "base64" = [186; 199; 171; 165; 171; 44]%N /\
  base64 "user:pass" = "dXNlcjpwYXNz".
Proof.
  cbv zeta. split; [reflexivity|]. split; [reflexivity|]. split; [reflexivity|].
  split; [reflexivity|]. split; [vm_compute; reflexivity|]. split; reflexivity.
Qed.

End AuthorizationSample.

(** C9.  The Authorization header [httpGet] builds does not reach the
    transport when the client's [fetchOptions] has a [headers] field: in
    [{ headers, ...this._fetchOptions }] the spread comes last and replaces
    the built mapping, for every implementation of [Buffer].  With
    credentials configured and [fetchOptions = {headers: {Accept:
    'application/json'}}], the transport call of [httpGet] carries the
    [Accept] header alone.  Without the [headers] field in [fetchOptions],
    the Authorization header is sent; and [httpPost], given the same mapping
    as [callOptions], sends the headers it has built. *)
Theorem get_authorization_overridden (B : Type) (of_string : string -> string -> B)
    (to_string : B -> string) :
  let P := Sample.platform_with B of_string to_string in
  let cr := {| name := "dXNl"; password := Some "cg" |} in
  let given : gmap string JSValue :=
    {[ "headers" := JSObject [("Accept", JSString "application/json")] ]} in
  let options (plain call : option (gmap string JSValue)) : HttpAgentOptions :=
    {| fetch := Some (Sample.flaky 0); fetchOptions := plain; callOptions := call;
       host := Some "https://x.astrox.app"; credentials := Some cr;
       disableNonce := None; retryTimes := None |} in
  let authorization :=
    [("Authorization", JSString ("Basic " +:+ to_string (of_string "dXNl:cg" "base64")))] in
  (exists c : HttpClient,
     @constructor P (options (Some given) (Some given)) = Fulfilled c /\
     _credentials c = Some "dXNl:cg" /\
     @get_headers P c = authorization /\
     fetch_calls (@httpGet P c "/status" [] []).1 = [("https://astrox.app/status", given)] /\
     given !! "Authorization" = None /\
     given !! "headers" <> Some (JSObject authorization)) /\
  (exists c : HttpClient,
     @constructor P (options None None) = Fulfilled c /\
     fetch_calls (@httpGet P c "/status" [] []).1 =
       [("https://astrox.app/status", {[ "headers" := JSObject authorization ]})]) /\
  (exists c : HttpClient,
     @constructor Sample.platform (options (Some given) (Some given)) = Fulfilled c /\
     fetch_calls (@httpPost Sample.platform c "/call" [] []).1 =
       [("https://astrox.app/call",
         {[ "method" := JSString "POST";
            "headers" := JSHeaders [("Content-Type", JSString "application/json");
                                    ("Authorization", JSString "Basic user")];
            "body" := JSObject [] ]})]).
Proof.
  cbv zeta. split; [|split].
  - eexists. split; [reflexivity|]. split; [reflexivity|]. split; [reflexivity|].
    split; [vm_compute; reflexivity|]. split; [reflexivity|].
    rewrite lookup_singleton_eq. intros [= Habs].
  - eexists. split; [reflexivity|]. vm_compute. reflexivity.
  - eexists. split; [reflexivity|]. vm_compute. reflexivity.
Qed.

(** ** C7: the query string of [httpGet] *)

(** The pairs the loop of [httpGet] writes, for the keys it visits. *)
Lemma query_fold_later (body : JSRecord) (keys : list string) :
  forall (url : string) (n : nat),
    (foldl (query_step body) (url, S n) keys).1 =
    match keys with
    | [] => url
    | _ => url +:+ "&" +:+ join_pairs ((fun k => (k, get_property body k)) <$> keys)
    end.
Proof.
  induction keys as [|k keys IH]; intros url n; [reflexivity|].
  cbn [foldl query_step Nat.eqb]. rewrite IH. destruct keys as [|k2 keys].
  - cbn [fmap list_fmap join_pairs]. rewrite !append_assoc. reflexivity.
  - cbn [fmap list_fmap join_pairs]. rewrite !append_assoc. reflexivity.
Qed.

Lemma query_url_pairs (endpoint : string) (body : JSRecord) :
  query_url endpoint body =
  endpoint +:+ query_string ((fun k => (k, get_property body k)) <$> for_in body).
Proof.
  unfold query_url. destruct (for_in body) as [|k keys].
  - cbn. symmetry. apply append_nil_r.
  - cbn [foldl query_step Nat.eqb]. rewrite query_fold_later. destruct keys as [|k2 keys].
    + cbn [fmap list_fmap query_string join_pairs]. rewrite !append_assoc. reflexivity.
    + cbn [fmap list_fmap query_string join_pairs]. rewrite !append_assoc. reflexivity.
Qed.

Lemma insert_by_index_perm (x : N * string) (l : list (N * string)) :
  insert_by_index x l ≡ₚ x :: l.
Proof.
  induction l as [|y l IH]; [reflexivity|].
  cbn [insert_by_index]. destruct (x.1 <=? y.1)%N; [reflexivity|].
  rewrite IH. apply Permutation_swap.
Qed.

Lemma sort_by_index_perm (l : list (N * string)) : foldr insert_by_index [] l ≡ₚ l.
Proof.
  induction l as [|x l IH]; [reflexivity|].
  cbn [foldr]. rewrite insert_by_index_perm, IH. reflexivity.
Qed.

Lemma omap_cons_match {A B : Type} (f : A -> option B) (x : A) (l : list A) :
  omap f (x :: l) = match f x with Some y => y :: omap f l | None => omap f l end.
Proof. reflexivity. Qed.

Lemma indices_are_indices (keys : list string) :
  Forall (fun x : N * string => array_index x.2 = Some x.1)
    (omap (fun k => n ← array_index k; Some (n, k)) keys).
Proof.
  induction keys as [|k keys IH]; [constructor|].
  rewrite omap_cons_match. destruct (array_index k) as [n|] eqn:Hk; cbn [mbind option_bind];
    [|exact IH].
  constructor; [exact Hk|exact IH].
Qed.

Lemma for_in_perm (body : JSRecord) : for_in body ≡ₚ body.*1.
Proof.
  unfold for_in. rewrite sort_by_index_perm.
  induction (body.*1) as [|k keys IH]; [reflexivity|].
  rewrite omap_cons_match. destruct (array_index k) as [n|] eqn:Hk; cbn [mbind option_bind].
  - rewrite filter_cons_False by congruence. cbn [fmap list_fmap app snd]. by rewrite IH.
  - rewrite filter_cons_True by exact Hk.
    rewrite <- Permutation_middle. by rewrite IH.
Qed.

(** The keys that are not array indices are visited in creation order. *)
Lemma for_in_other_keys (body : JSRecord) :
  filter (fun k => array_index k = None) (for_in body) =
  filter (fun k => array_index k = None) body.*1.
Proof.
  unfold for_in. rewrite filter_app.
  assert (filter (fun k => array_index k = None)
            (foldr insert_by_index []
               (omap (fun k => n ← array_index k; Some (n, k)) body.*1)).*2 = []) as ->.
  { pose proof (indices_are_indices body.*1) as Hall.
    rewrite <- sort_by_index_perm in Hall.
    induction Hall as [|x l Hx Hall IH]; [reflexivity|].
    cbn [fmap list_fmap]. rewrite filter_cons_False by (cbn; congruence). exact IH. }
  cbn [app]. induction (body.*1) as [|k keys IH]; [reflexivity|].
  destruct (array_index k) as [n|] eqn:Hk.
  - rewrite !filter_cons_False by congruence. exact IH.
  - rewrite !filter_cons_True by exact Hk. by rewrite IH.
Qed.

Lemma for_in_no_index (body : JSRecord) :
  Forall (fun k => array_index k = None) body.*1 -> for_in body = body.*1.
Proof.
  intros Hall. unfold for_in.
  assert (omap (fun k => n ← array_index k; Some (n, k)) body.*1 = []) as ->.
  { induction Hall as [|k keys Hk Hall IH]; [reflexivity|].
    rewrite omap_cons_match, Hk. exact IH. }
  cbn [foldr fmap list_fmap app].
  induction Hall as [|k keys Hk Hall IH]; [reflexivity|].
  rewrite filter_cons_True by exact Hk. by rewrite IH.
Qed.

Lemma pairs_of_keys (body : JSRecord) :
  NoDup body.*1 -> (fun k => (k, get_property body k)) <$> body.*1 = body.
Proof.
  induction body as [|[k v] body IH]; intros Hnodup; [reflexivity|].
  cbn [fmap list_fmap fst] in *. apply NoDup_cons in Hnodup as [Hk Hnodup].
  cbn [get_property]. rewrite String.eqb_refl. f_equal.
  rewrite <- (IH Hnodup) at 2.
  apply list_fmap_ext. intros i k' Hk'.
  destruct (String.eqb_spec k k') as [->|_]; [|reflexivity].
  exfalso. apply Hk. eapply list_elem_of_lookup_2. exact Hk'.
Qed.

Lemma insert_by_index_sorted (x : N * string) (l : list (N * string)) :
  StronglySorted (fun a b => (a.1 <= b.1)%N) l ->
  StronglySorted (fun a b => (a.1 <= b.1)%N) (insert_by_index x l).
Proof.
  induction 1 as [|y l Hsorted IH Hall]; [repeat constructor|].
  cbn [insert_by_index]. destruct (x.1 <=? y.1)%N eqn:Hle.
  - apply N.leb_le in Hle. constructor; [by constructor|].
    constructor; [exact Hle|].
    eapply Forall_impl; [exact Hall|]. intros z Hz. cbv beta in *. lia.
  - apply N.leb_gt in Hle. constructor; [exact IH|].
    rewrite insert_by_index_perm. constructor; [cbv beta; lia|exact Hall].
Qed.

Lemma sort_by_index_sorted (l : list (N * string)) :
  StronglySorted (fun a b => (a.1 <= b.1)%N) (foldr insert_by_index [] l).
Proof.
  induction l as [|x l IH]; [constructor|]. cbn [foldr]. by apply insert_by_index_sorted.
Qed.

(** The keys that are array indices, in creation order. *)
Lemma indices_keys (keys : list string) :
  (omap (fun k => n ← array_index k; Some (n, k)) keys).*2 =
  filter (fun k => is_Some (array_index k)) keys.
Proof.
  induction keys as [|k keys IH]; [reflexivity|].
  rewrite omap_cons_match. destruct (array_index k) as [n|] eqn:Hk; cbn [mbind option_bind].
  - rewrite filter_cons_True by (rewrite Hk; eauto).
    cbn [fmap list_fmap snd]. by rewrite IH.
  - rewrite filter_cons_False by (rewrite Hk; intros [? ?]; discriminate). exact IH.
Qed.

(** An array index has one spelling. *)
Lemma array_index_pretty (k : string) (n : N) : array_index k = Some n -> pretty n = k.
Proof.
  unfold array_index. destruct k as [|a k]; [discriminate|].
  destruct (decimal_value 0 (String a k)) as [m|]; cbn [mbind option_bind]; [|discriminate].
  destruct (String.eqb (pretty m) (String a k) && (m <? 2 ^ 32 - 1)%N) eqn:Hm; [|discriminate].
  intros [= <-]. apply andb_true_iff in Hm as [Hm _]. by apply String.eqb_eq in Hm.
Qed.

(** Distinct keys sorted by index are strictly ascending. *)
Lemma sorted_indices_strict (l : list (N * string)) :
  Forall (fun x : N * string => array_index x.2 = Some x.1) l ->
  NoDup l.*2 ->
  StronglySorted (fun a b => (a.1 <= b.1)%N) l ->
  StronglySorted
    (fun a b => exists m n, array_index a = Some m /\ array_index b = Some n /\ (m < n)%N)
    l.*2.
Proof.
  intros Hidx Hnodup Hsorted.
  induction Hsorted as [|x l Hsorted IH Hall]; [constructor|].
  apply Forall_cons in Hidx as [Hx Hidx]. cbn [fmap list_fmap] in *.
  apply NoDup_cons in Hnodup as [Hnotin Hnodup].
  constructor; [by apply IH|].
  apply Forall_fmap, Forall_forall. intros y Hy.
  rewrite Forall_forall in Hall, Hidx.
  specialize (Hall y Hy). specialize (Hidx y Hy). cbv beta in *. unfold compose.
  exists x.1, y.1. split; [exact Hx|]. split; [exact Hidx|].
  destruct (decide (x.1 = y.1)) as [Heq|Hne]; [|lia].
  exfalso. apply Hnotin.
  apply array_index_pretty in Hx, Hidx. rewrite <- Hx, Heq, Hidx.
  by apply list_elem_of_fmap_2.
Qed.

(** The order of [for ... in]: the keys that are array indices, strictly
    ascending, then the other keys as created. *)
Lemma for_in_indices_first (body : JSRecord) :
  NoDup body.*1 ->
  exists indices : list string,
    for_in body = (indices ++ filter (fun k => array_index k = None) body.*1)%list /\
    indices ≡ₚ filter (fun k => is_Some (array_index k)) body.*1 /\
    StronglySorted
      (fun a b => exists m n, array_index a = Some m /\ array_index b = Some n /\ (m < n)%N)
      indices.
Proof.
  intros Hnodup.
  set (found := omap (fun k => n ← array_index k; Some (n, k)) body.*1).
  assert (Hperm : (foldr insert_by_index [] found).*2 ≡ₚ
                  filter (fun k => is_Some (array_index k)) body.*1).
  { rewrite sort_by_index_perm. unfold found. by rewrite indices_keys. }
  exists (foldr insert_by_index [] found).*2.
  split; [reflexivity|]. split; [exact Hperm|].
  apply sorted_indices_strict.
  - rewrite sort_by_index_perm. apply indices_are_indices.
  - rewrite Hperm. by apply NoDup_filter.
  - apply sort_by_index_sorted.
Qed.

Section Query.
Context `{Platform}.

(** The URL of every transport call of the loop is the request URL,
    resolved against the client's host. *)
Lemma retry_fetch_urls (c : HttpClient) (url : string) (init : gmap string JSValue)
    (log : list Event) :
  exists added : list Event,
    (_requestAndRetry c (fetch_at c url init) 0 log).1 = (log ++ added)%list /\
    forall url' init',
      (url', init') ∈ fetch_calls added ->
      exists u, URL_new url (Some (_host c)) = Fulfilled u /\ url' = URL_href u.
Proof.
  destruct (retry_events c url init _ 0 log eq_refl) as (added & Hlog & Hall).
  exists added. split; [exact Hlog|]. clear Hlog.
  induction Hall as [|e added He Hall IH].
  - intros url' init' Hin. by apply elem_of_nil in Hin.
  - destruct He as [(u & Hu & ->)|(msg & ->)]; cbn.
    + intros url' init' Hin.
      apply elem_of_cons in Hin as [Heq|Hin]; [|eauto].
      injection Heq as -> _. eauto.
    + exact IH.
Qed.

(** C7, amended.  [httpGet] appends to the endpoint the pairs [key=value]
    of the parameters, joined by [&] after a [?], in the order [for ... in]
    visits the keys: every key once; first the keys that are array indices,
    in strictly ascending numeric order whatever the order of their creation,
    then the other keys in creation order.  When no key is an array index
    this is the creation order of the mapping.  Nothing is appended when
    there is no parameter.  The result, resolved against the client's host,
    is the URL of every transport call. *)
Theorem get_query_string (c : HttpClient) (endpoint : string) (body : JSRecord)
    (log : list Event) :
  NoDup body.*1 ->
  query_url endpoint body =
    endpoint +:+ query_string ((fun k => (k, get_property body k)) <$> for_in body) /\
  for_in body ≡ₚ body.*1 /\
  (exists indices : list string,
     for_in body = (indices ++ filter (fun k => array_index k = None) body.*1)%list /\
     indices ≡ₚ filter (fun k => is_Some (array_index k)) body.*1 /\
     StronglySorted
       (fun a b => exists m n, array_index a = Some m /\ array_index b = Some n /\ (m < n)%N)
       indices) /\
  filter (fun k => array_index k = None) (for_in body) =
    filter (fun k => array_index k = None) body.*1 /\
  (Forall (fun k => array_index k = None) body.*1 ->
     query_url endpoint body = endpoint +:+ query_string body) /\
  (body = [] -> query_url endpoint body = endpoint) /\
  (body <> [] -> exists rest, query_url endpoint body = endpoint +:+ "?" +:+ rest) /\
  (exists added,
     (httpGet c endpoint body log).1 = (log ++ added)%list /\
     forall url init,
       (url, init) ∈ fetch_calls added ->
       exists u,
         URL_new (query_url endpoint body) (Some (_host c)) = Fulfilled u /\
         url = URL_href u).
Proof.
  intros Hnodup. split; [apply query_url_pairs|]. split; [apply for_in_perm|].
  split; [by apply for_in_indices_first|].
  split; [apply for_in_other_keys|]. split; [|split; [|split]].
  - intros Hall. rewrite query_url_pairs, (for_in_no_index body Hall).
    by rewrite (pairs_of_keys body Hnodup).
  - intros ->. reflexivity.
  - intros Hne. rewrite query_url_pairs.
    destruct (for_in body) as [|k keys] eqn:Hkeys.
    + exfalso. pose proof (for_in_perm body) as Hperm. rewrite Hkeys in Hperm.
      apply Permutation_nil_l in Hperm. destruct body; [done|discriminate].
    + eexists. reflexivity.
  - rewrite httpGet_run. apply retry_fetch_urls.
Qed.

End Query.

(** C7, as stated, fails: of the parameters [{b: 1, 1: 2}], created in this
    order, [httpGet] writes [1=2] first. *)
Lemma get_query_order_counterexample :
  let body := [("b", JSNumber 1); ("1", JSNumber 2)] in
  NoDup body.*1 /\
  query_url "/status" body = "/status?1=2&b=1" /\
  "/status" +:+ query_string body = "/status?b=1&1=2" /\
  fetch_calls (@httpGet Sample.platform (Sample.client (Sample.flaky 0) 3 None [])
                 "/status" body []).1 =
    [("https://astrox.app/status?1=2&b=1", {[ "headers" := JSObject [] ]})].
Proof.
  cbv zeta. split; [|split; [reflexivity|split; [reflexivity|]]].
  - apply (bool_decide_unpack _). reflexivity.
  - vm_compute. reflexivity.
Qed.

Section QuerySample.
#[local] Existing Instance Sample.platform.

(** [httpGet('/status', {b: 1, 10: 2, 9: 3})]: the indices first, 9 before
    10, then [b]. *)
Lemma get_query_string_witness :
  let body := [("b", JSNumber 1); ("10", JSNumber 2); ("9", JSNumber 3)] in
  let c := Sample.client (Sample.flaky 0) 3 None [] in
  (NoDup body.*1 /\ body <> []) /\
  for_in body = ["9"; "10"; "b"] /\
  query_url "/status" body = "/status?9=3&10=2&b=1" /\
  (exists rest, query_url "/status" body = "/status" +:+ "?" +:+ rest) /\
  fetch_calls (httpGet c "/status" body []).1 =
    [("https://astrox.app/status?9=3&10=2&b=1", {[ "headers" := JSObject [] ]})].
Proof.
  intros body c.
  assert (Hyp : NoDup body.*1 /\ body <> []).
  { split; [apply (bool_decide_unpack _); reflexivity|discriminate]. }
  split; [exact Hyp|].
  destruct (get_query_string c "/status" body [] (proj1 Hyp))
    as (Hurl & _ & (indices & Hkeys & Hperm & Hsorted) & _ & _ & _ & Hmark & _).
  assert (Hfound : filter (fun k => is_Some (array_index k)) body.*1 = ["10"; "9"])
    by reflexivity.
  assert (Hfor : for_in body = ["9"; "10"; "b"]).
  { rewrite Hkeys. rewrite Hfound in Hperm. symmetry in Hperm.
    apply Permutation_length_2_inv in Hperm as [->| ->]; [|reflexivity].
    exfalso. apply StronglySorted_inv in Hsorted as [_ Hall].
    apply Forall_cons in Hall as [(m & n & Hm & Hn & Hlt) _].
    injection Hm as <-. injection Hn as <-. lia. }
  split; [exact Hfor|]. split; [|split].
  - rewrite Hurl, Hfor. reflexivity.
  - exact (Hmark (proj2 Hyp)).
  - vm_compute. reflexivity.
Defined.

(** [httpGet('/status', {a: 1, b: 2})]: no key is an array index, and the
    parameters are written as created. *)
Lemma get_status_a_b :
  let body := [("a", JSNumber 1); ("b", JSNumber 2)] in
  let c := Sample.client (Sample.flaky 0) 3 None [] in
  Forall (fun k => array_index k = None) body.*1 /\
  for_in body = ["a"; "b"] /\
  query_url "/status" body = "/status?a=1&b=2" /\
  fetch_calls (httpGet c "/status" body []).1 =
    [("https://astrox.app/status?a=1&b=2", {[ "headers" := JSObject [] ]})].
Proof.
  cbv zeta. split; [repeat constructor|]. split; [reflexivity|]. split; [reflexivity|].
  vm_compute. reflexivity.
Qed.

End QuerySample.

(** ** C3: the order of the pipeline *)

Lemma priority_or_0_Some (p : Z) : priority_or_0 (Some p) = p.
Proof. cbn. destruct (Z.eqb_spec p 0); congruence. Qed.

Lemma priority_insert_same (store : gmap nat Z) (r : nat) (p : Z) :
  priority_or_0 (<[r := p]> store !! r) = p.
Proof. rewrite lookup_insert_eq. apply priority_or_0_Some. Qed.

Lemma priority_insert_other (store : gmap nat Z) (r a : nat) (p : Z) :
  a <> r -> priority_or_0 (<[r := p]> store !! a) = priority_or_0 (store !! a).
Proof. intros Hne. by rewrite lookup_insert_ne. Qed.

(** Where [findIndex] puts a new element: after every element that fails
    the test, before the first that passes it. *)
Lemma findIndex_split {A : Type} (p : A -> bool) (l : list A) :
  exists s : nat,
    (s <= length l)%nat /\
    (if (0 <=? findIndex p l)%Z then Z.to_nat (findIndex p l) else length l) = s /\
    Forall (fun x => p x = false) (take s l) /\
    match drop s l with [] => True | y :: _ => p y = true end.
Proof.
  induction l as [|x l (s & Hs & Hstart & Htake & Hdrop)].
  - exists 0%nat. cbn. repeat split; [lia|constructor].
  - cbn [findIndex]. destruct (p x) eqn:Hx.
    + exists 0%nat. cbn. repeat split; [lia|constructor|exact Hx].
    + exists (S s). cbn [length take drop]. split; [lia|]. split; [|split].
      * destruct (0 <=? findIndex p l)%Z eqn:Hi.
        -- apply Z.leb_le in Hi.
           replace (0 <=? findIndex p l + 1)%Z with true by (symmetry; apply Z.leb_le; lia).
           lia.
        -- cbn. lia.
      * constructor; [exact Hx|exact Htake].
      * exact Hdrop.
Qed.

Lemma splice_lookup_lt {A : Type} (s : nat) (x : A) (l : list A) (i : nat) :
  (s <= length l)%nat -> (i < s)%nat -> splice s x l !! i = l !! i.
Proof.
  intros Hs Hi. unfold splice.
  rewrite lookup_app_l by (rewrite length_take_le; lia).
  by apply lookup_take_lt.
Qed.

Lemma splice_lookup_eq {A : Type} (s : nat) (x : A) (l : list A) :
  (s <= length l)%nat -> splice s x l !! s = Some x.
Proof.
  intros Hs. unfold splice.
  rewrite lookup_app_r by (rewrite length_take_le; lia).
  rewrite length_take_le by lia. by rewrite Nat.sub_diag.
Qed.

Lemma splice_lookup_ge {A : Type} (s : nat) (x : A) (l : list A) (i : nat) :
  (s <= length l)%nat -> (s <= i)%nat -> splice s x l !! (S i) = l !! i.
Proof.
  intros Hs Hi. unfold splice.
  rewrite lookup_app_r by (rewrite length_take_le; lia).
  rewrite length_take_le by lia.
  replace (S i - s)%nat with (S (i - s)) by lia.
  change ((x :: drop s l) !! S (i - s)%nat) with (drop s l !! (i - s)%nat).
  rewrite lookup_drop. f_equal. lia.
Qed.

Lemma splice_fmap {A B : Type} (f : A -> B) (s : nat) (x : A) (l : list A) :
  f <$> splice s x l = splice s (f x) (f <$> l).
Proof. unfold splice. by rewrite fmap_app, fmap_cons, fmap_take, fmap_drop. Qed.

Lemma splice_perm {A : Type} (s : nat) (x : A) (l : list A) : splice s x l ≡ₚ x :: l.
Proof.
  unfold splice. rewrite <- Permutation_middle. by rewrite take_drop.
Qed.

(** Inserting an element keeps the order of the others. *)
Lemma splice_before {A : Type} (s : nat) (x a b : A) (l : list A) :
  (s <= length l)%nat -> before a b l -> before a b (splice s x l).
Proof.
  intros Hs (i & j & Hij & Hi & Hj).
  exists (if decide (i < s)%nat then i else S i), (if decide (j < s)%nat then j else S j).
  split; [|split].
  - repeat case_decide; lia.
  - case_decide; [by rewrite splice_lookup_lt|by rewrite splice_lookup_ge by lia].
  - case_decide; [by rewrite splice_lookup_lt|by rewrite splice_lookup_ge by lia].
Qed.

Lemma StronglySorted_ext {A : Type} (R1 R2 : relation A) (l : list A) :
  (forall a b, a ∈ l -> b ∈ l -> R1 a b -> R2 a b) ->
  StronglySorted R1 l -> StronglySorted R2 l.
Proof.
  intros Hext Hsorted. induction Hsorted as [|x l Hsorted IH Hall]; [constructor|].
  constructor.
  - apply IH. intros a b Ha Hb. apply Hext; by apply list_elem_of_further.
  - rewrite Forall_forall in *. intros y Hy.
    apply Hext; [apply list_elem_of_here|by apply list_elem_of_further|by apply Hall].
Qed.

(** What one call of [addTransform] does. *)
Lemma addTransform_run (fn : HttpAgentRequestTransformFn) (priority : option Z)
    (store : gmap nat Z) (c : HttpClient) :
  let p := match priority with
           | Some p => p
           | None => priority_or_0 (store !! fn_ref fn)
           end in
  exists s : nat,
    (s <= length (_pipeline c))%nat /\
    addTransform fn priority store c =
      (<[fn_ref fn := p]> store, set_pipeline (splice s fn (_pipeline c)) c) /\
    Forall (fun x => (p <= priority_in store x)%Z) (take s (_pipeline c)) /\
    match drop s (_pipeline c) with
    | [] => True
    | y :: _ => (priority_in store y < p)%Z
    end.
Proof.
  intros p.
  destruct (findIndex_split (fun x => (priority_or_0 (store !! fn_ref x) <? p)%Z) (_pipeline c))
    as (s & Hs & Hstart & Htake & Hdrop).
  exists s. split; [exact Hs|]. split; [|split].
  - unfold addTransform. fold p. rewrite Hstart. reflexivity.
  - eapply Forall_impl; [exact Htake|]. intros x Hx. cbv beta in Hx.
    apply Z.ltb_ge in Hx. exact Hx.
  - destruct (drop s (_pipeline c)) as [|y rest]; [done|].
    apply Z.ltb_lt in Hdrop. exact Hdrop.
Qed.

(** The elements [addTransform] leaves after the new one have a strictly
    lower priority, when the pipeline was in descending order. *)
Lemma lower_after (store : gmap nat Z) (pipeline : list HttpAgentRequestTransformFn)
    (s : nat) (p : Z) :
  descending store pipeline ->
  match drop s pipeline with
  | [] => True
  | y :: _ => (priority_in store y < p)%Z
  end ->
  Forall (fun y => (priority_in store y < p)%Z) (drop s pipeline).
Proof.
  intros Hsorted Hhead. unfold descending in Hsorted.
  rewrite <- (take_drop s pipeline) in Hsorted.
  apply StronglySorted_app in Hsorted as (_ & _ & Hsorted).
  destruct (drop s pipeline) as [|y rest]; [constructor|].
  apply StronglySorted_cons in Hsorted as [Hall _].
  constructor; [exact Hhead|].
  eapply Forall_impl; [exact Hall|]. intros z Hz. cbv beta in Hz. lia.
Qed.

Lemma addTransform_well_ordered (fn : HttpAgentRequestTransformFn) (priority : option Z)
    (store : gmap nat Z) (c : HttpClient) (added : list nat) :
  well_ordered store added (_pipeline c) ->
  fn_ref fn ∉ added ->
  well_ordered (addTransform fn priority store c).1 (added ++ [fn_ref fn])
    (_pipeline (addTransform fn priority store c).2).
Proof.
  intros (Hperm & Hsorted & Hstable) Hfresh.
  destruct (addTransform_run fn priority store c) as (s & Hs & -> & Htake & Hdrop).
  cbn [fst snd set_pipeline _pipeline].
  set (p := match priority with
            | Some p => p
            | None => priority_or_0 (store !! fn_ref fn)
            end) in *.
  pose proof (lower_after store (_pipeline c) s p Hsorted Hdrop) as Hlow.
  assert (Hids : forall x, x ∈ _pipeline c -> fn_ref x <> fn_ref fn).
  { intros x Hx Heq. apply Hfresh. rewrite <- Hperm, <- Heq.
    by apply list_elem_of_fmap_2. }
  assert (Hold : forall x, x ∈ _pipeline c ->
            priority_in (<[fn_ref fn := p]> store) x = priority_in store x).
  { intros x Hx. unfold priority_in. apply priority_insert_other. by apply Hids. }
  assert (Hnew : priority_in (<[fn_ref fn := p]> store) fn = p)
    by apply priority_insert_same.
  assert (Hin_take : forall x, x ∈ take s (_pipeline c) -> x ∈ _pipeline c).
  { intros x Hx. apply elem_of_take in Hx as (i & Hi & _).
    by eapply list_elem_of_lookup_2. }
  assert (Hin_drop : forall x, x ∈ drop s (_pipeline c) -> x ∈ _pipeline c).
  { intros x Hx. apply list_elem_of_lookup in Hx as (i & Hi).
    rewrite lookup_drop in Hi. by eapply list_elem_of_lookup_2. }
  rewrite Forall_forall in Htake, Hlow.
  split; [|split].
  - rewrite splice_perm, fmap_cons, Hperm. apply Permutation_cons_append.
  - unfold descending in *. rewrite <- (take_drop s (_pipeline c)) in Hsorted.
    apply StronglySorted_app in Hsorted as (Hcross & Hl & Hr).
    unfold splice. apply StronglySorted_app. split; [|split].
    + intros x1 x2 H1 H2. rewrite (Hold x1) by auto.
      apply elem_of_cons in H2 as [->|H2].
      * rewrite Hnew. by apply Htake.
      * rewrite (Hold x2) by auto. by apply Hcross.
    + eapply StronglySorted_ext; [|exact Hl].
      intros a b Ha Hb Hab. cbv beta in *. rewrite !Hold by auto. exact Hab.
    + apply StronglySorted_cons. split.
      * apply Forall_forall. intros y Hy. rewrite Hnew, Hold by auto.
        specialize (Hlow y Hy). cbv beta in Hlow. lia.
      * eapply StronglySorted_ext; [|exact Hr].
        intros a b Ha Hb Hab. cbv beta in *. rewrite !Hold by auto. exact Hab.
  - intros a b (i & j & Hij & Hi & Hj) Heq.
    rewrite splice_fmap.
    assert (Hlen : (s <= length (fn_ref <$> _pipeline c))%nat) by (rewrite length_fmap; lia).
    apply lookup_app_Some in Hj as [Hj|[Hge Hj]].
    + assert (added !! i = Some a) as Hi'.
      { rewrite lookup_app_l in Hi; [exact Hi|].
        apply lookup_lt_Some in Hj. lia. }
      apply splice_before; [exact Hlen|]. apply Hstable; [by exists i, j|].
      rewrite !priority_insert_other in Heq; [exact Heq| |].
      * intros ->. apply Hfresh. by eapply list_elem_of_lookup_2.
      * intros ->. apply Hfresh. by eapply list_elem_of_lookup_2.
    + assert (j = length added /\ b = fn_ref fn) as [-> ->].
      { destruct (j - length added)%nat eqn:Hj0; [|done].
        injection Hj as <-. split; [lia|done]. }
      assert (added !! i = Some a) as Hi' by (rewrite lookup_app_l in Hi; [exact Hi|lia]).
      assert (a <> fn_ref fn) as Hne
        by (intros ->; apply Hfresh; by eapply list_elem_of_lookup_2).
      rewrite priority_insert_same, priority_insert_other in Heq by exact Hne.
      assert (a ∈ fn_ref <$> _pipeline c) as Ha
        by (rewrite Hperm; by eapply list_elem_of_lookup_2).
      apply list_elem_of_lookup in Ha as (i0 & Hi0).
      exists i0, s. destruct (decide (i0 < s)%nat) as [Hlt|Hnlt].
      * split; [exact Hlt|]. split; [|by apply splice_lookup_eq].
        rewrite splice_lookup_lt by lia. exact Hi0.
      * exfalso. apply list_lookup_fmap_Some in Hi0 as (fa & -> & Hfa).
        assert (fa ∈ drop s (_pipeline c)) as Hfa_drop.
        { apply list_elem_of_lookup. exists (i0 - s)%nat.
          rewrite lookup_drop. rewrite <- Hfa. f_equal. lia. }
        specialize (Hlow fa Hfa_drop). cbv beta in Hlow.
        unfold priority_in in Hlow. lia.
Qed.

Lemma addTransforms_well_ordered (calls : list (HttpAgentRequestTransformFn * option Z)) :
  forall (store : gmap nat Z) (c : HttpClient) (added : list nat),
    well_ordered store added (_pipeline c) ->
    NoDup (added ++ registered calls) ->
    well_ordered (addTransforms calls store c).1 (added ++ registered calls)
      (_pipeline (addTransforms calls store c).2).
Proof.
  induction calls as [|[fn priority] calls IH]; intros store c added Hinv Hnodup.
  - cbn. rewrite app_nil_r. exact Hinv.
  - cbn [addTransforms].
    pose proof (addTransform_well_ordered fn priority store c added Hinv) as Hstep.
    destruct (addTransform fn priority store c) as [store' c'] eqn:Hadd.
    cbn [fst snd] in Hstep.
    change (registered ((fn, priority) :: calls)) with (fn_ref fn :: registered calls) in *.
    replace (added ++ fn_ref fn :: registered calls)%list
      with ((added ++ [fn_ref fn]) ++ registered calls)%list in *
      by (by rewrite <- app_assoc).
    apply IH; [|exact Hnodup].
    apply Hstep. apply NoDup_app in Hnodup as (Hnodup & _ & _).
    apply NoDup_app in Hnodup as (_ & Hnot & _).
    intros Hin. apply (Hnot _ Hin). apply list_elem_of_here.
Qed.

(** Every registered function ends up with the priority of its call: the
    one given, or else the one it declared. *)
Lemma addTransforms_priority (calls : list (HttpAgentRequestTransformFn * option Z)) :
  forall (store : gmap nat Z) (c : HttpClient),
    NoDup (registered calls) ->
    (forall a, a ∉ registered calls ->
       (addTransforms calls store c).1 !! a = store !! a) /\
    (forall fn priority, (fn, priority) ∈ calls ->
       priority_in (addTransforms calls store c).1 fn =
       match priority with Some p => p | None => priority_in store fn end).
Proof.
  induction calls as [|[fn priority] calls IH]; intros store c Hnodup.
  - split; [done|]. intros fn priority Hin. by apply elem_of_nil in Hin.
  - change (registered ((fn, priority) :: calls)) with (fn_ref fn :: registered calls) in *.
    apply NoDup_cons in Hnodup as [Hfresh Hnodup].
    cbn [addTransforms].
    destruct (addTransform_run fn priority store c) as (s & _ & -> & _ & _).
    destruct (IH (<[fn_ref fn :=
                     match priority with
                     | Some p => p
                     | None => priority_or_0 (store !! fn_ref fn)
                     end]> store)
                 (set_pipeline (splice s fn (_pipeline c)) c) Hnodup) as [IH1 IH2].
    split.
    + intros a Ha. apply not_elem_of_cons in Ha as [Hne Ha].
      rewrite IH1 by exact Ha. by rewrite lookup_insert_ne.
    + intros fn' priority' Hin. apply elem_of_cons in Hin as [[= -> ->]|Hin].
      * unfold priority_in at 1. rewrite IH1 by exact Hfresh.
        rewrite priority_insert_same. reflexivity.
      * rewrite (IH2 fn' priority' Hin). destruct priority' as [p'|]; [reflexivity|].
        unfold priority_in. apply priority_insert_other.
        intros Heq. apply Hfresh. rewrite <- Heq.
        unfold registered. apply list_elem_of_fmap_2.
        by apply (list_elem_of_fmap_2 fst) in Hin.
Qed.

(** C3, as stated, fails.  Of two transforms registered with the same
    priority, the one registered last comes last, not first.  And the
    pipeline need not be sorted when a function is registered twice: the
    second registration rewrites the priority of the entry already there. *)
Lemma pipeline_order_counterexample :
  (let calls := [(Sample.silent 0, Some 5%Z); (Sample.silent 1, Some 5%Z)] in
   let '(store, c) := addTransforms calls ∅ (Sample.client (Sample.flaky 0) 3 None []) in
   fn_ref <$> _pipeline c = [0; 1]%nat /\
   priority_in store <$> _pipeline c = [5; 5]%Z /\
   ~ before 1%nat 0%nat (fn_ref <$> _pipeline c)) /\
  (let calls := [(Sample.silent 0, Some 5%Z); (Sample.silent 1, Some 3%Z);
                 (Sample.silent 0, Some 1%Z)] in
   let '(store, c) := addTransforms calls ∅ (Sample.client (Sample.flaky 0) 3 None []) in
   fn_ref <$> _pipeline c = [0; 1; 0]%nat /\
   priority_in store <$> _pipeline c = [1; 3; 1]%Z /\
   ~ descending store (_pipeline c)).
Proof.
  split.
  - cbn. split; [reflexivity|]. split; [reflexivity|].
    intros (i & j & Hij & Hi & Hj).
    destruct i as [|[|i]]; try discriminate.
    destruct j as [|[|j]]; try discriminate; lia.
  - cbn. split; [reflexivity|]. split; [reflexivity|].
    intros Hsorted. apply StronglySorted_cons in Hsorted as [Hall _].
    apply Forall_cons in Hall as [Hle _]. vm_compute in Hle. by apply Hle.
Qed.

(** C3, amended.  After any run of [addTransform] calls that registers
    pairwise distinct functions on a client whose pipeline was empty, the
    pipeline holds exactly the registered functions, in descending order of
    priority; of two functions with equal priority the one registered first
    comes first; each function carries the priority of its call, the one
    given or else the one it declared. *)
Theorem pipeline_order (calls : list (HttpAgentRequestTransformFn * option Z))
    (store : gmap nat Z) (c : HttpClient) :
  _pipeline c = [] ->
  NoDup (registered calls) ->
  let store' := (addTransforms calls store c).1 in
  let pipeline := _pipeline (addTransforms calls store c).2 in
  fn_ref <$> pipeline ≡ₚ registered calls /\
  descending store' pipeline /\
  (forall a b : nat,
     before a b (registered calls) ->
     priority_or_0 (store' !! a) = priority_or_0 (store' !! b) ->
     before a b (fn_ref <$> pipeline)) /\
  (forall fn priority,
     (fn, priority) ∈ calls ->
     priority_in store' fn =
     match priority with Some p => p | None => priority_in store fn end).
Proof.
  intros Hempty Hnodup store' pipeline.
  destruct (addTransforms_well_ordered calls store c []) as (H1 & H2 & H3).
  - rewrite Hempty. split; [reflexivity|]. split; [constructor|].
    intros a b (i & j & _ & Hi & _). discriminate.
  - exact Hnodup.
  - split; [exact H1|]. split; [exact H2|]. split; [exact H3|].
    apply (addTransforms_priority calls store c Hnodup).
Qed.

(** Priorities 5, then 10, then 1: the order is 10, 5, 1. *)
Lemma pipeline_order_witness :
  let calls := [(Sample.silent 0, Some 5%Z); (Sample.silent 1, Some 10%Z);
                (Sample.silent 2, Some 1%Z)] in
  let c := Sample.client (Sample.flaky 0) 3 None [] in
  let store' := (addTransforms calls ∅ c).1 in
  let pipeline := _pipeline (addTransforms calls ∅ c).2 in
  (_pipeline c = [] /\ NoDup (registered calls)) /\
  descending store' pipeline /\
  fn_ref <$> pipeline = [1; 0; 2]%nat /\
  priority_in store' <$> pipeline = [10; 5; 1]%Z.
Proof.
  intros calls c store' pipeline.
  assert (Hyp : _pipeline c = [] /\ NoDup (registered calls))
    by (split; [reflexivity|apply (bool_decide_unpack _); reflexivity]).
  split; [exact Hyp|].
  destruct (pipeline_order calls ∅ c (proj1 Hyp) (proj2 Hyp)) as (_ & Hsorted & _).
  split; [exact Hsorted|]. split; reflexivity.
Defined.

(** * Further properties of the retry loop *)


Lemma retried_cons (url : string) (init : gmap string JSValue) (r : Response)
    (rs : list Response) :
  retried url init (r :: rs) =
  (FetchCall url init :: ConsoleWarn (errorMessage r +:+ "  Retrying request.")
     :: retried url init rs)%list.
Proof. reflexivity. Qed.



Lemma fetch_calls_retried (url : string) (init : gmap string JSValue) (rs : list Response) :
  fetch_calls (retried url init rs) = replicate (length rs) (url, init).
Proof.
  induction rs as [|r rs IH]; [reflexivity|].
  rewrite retried_cons. cbn [length replicate]. rewrite <- IH. reflexivity.
Qed.

(** A response the loop returns is a 2xx response, whatever the request. *)
Lemma requestAndRetry_returns_ok (c : HttpClient) (request : Async Response) (d : nat) :
  forall (tries : nat) (log : list Event) (r : Response),
    (_retryTimes c - tries)%nat = d ->
    (_requestAndRetry c request tries log).2 = Fulfilled r ->
    ok r = true.
Proof.
  induction d as [|d IH]; intros tries log r Hd;
    rewrite requestAndRetry_run;
    (destruct (_ && _); [discriminate|]);
    (destruct (request log) as [log1 [resp|e]]; [|discriminate]);
    (destruct (ok resp) eqn:Hok; [intros [= <-]; exact Hok|]);
    (destruct (decide _) as [Hlt|Hge]; [|discriminate]).
  - lia.
  - apply IH. lia.
Qed.

Section RetryLog.
Context `{Platform}.
Variables (c : HttpClient) (url : string) (init : gmap string JSValue) (u : URL).
Hypothesis resolved : URL_new url (Some (_host c)) = Fulfilled u.

(** The whole run of the loop: the attempts that were retried, each with its
    warning, then one last transport call, whose answer decides the
    result. *)
Lemma retry_log (d : nat) :
  forall (tries : nat) (log : list Event),
    (tries <= _retryTimes c)%nat ->
    (_retryTimes c - tries)%nat = d ->
    exists rs : list Response,
      (length rs <= d)%nat /\
      (forall i r, rs !! i = Some r ->
         _fetch c (transport_calls log + i) (URL_href u) init = Fulfilled r /\ ok r = false) /\
      _requestAndRetry c (fetch_at c url init) tries log =
        ((log ++ retried (URL_href u) init rs ++ [FetchCall (URL_href u) init])%list,
         match _fetch c (transport_calls log + length rs) (URL_href u) init with
         | Fulfilled r => if ok r then Fulfilled r else Rejected (Error (errorMessage r))
         | Rejected e => Rejected e
         end) /\
      (forall r,
         _fetch c (transport_calls log + length rs) (URL_href u) init = Fulfilled r ->
         ok r = false -> length rs = d).
Proof.
  induction d as [|d IH]; intros tries log Hle Hd;
    rewrite (attempt_run c url init u resolved) by lia; cbv zeta;
    destruct (_fetch c (transport_calls log) (URL_href u) init) as [r0|e0] eqn:Hfirst.
  - destruct (ok r0) eqn:Hok0.
    + exists []. cbn [length retried mbind list_bind app]. rewrite Nat.add_0_r, Hfirst, Hok0.
      split; [lia|]. split; [intros i r Hi; discriminate|]. split; [reflexivity|].
      intros r [= <-]. congruence.
    + destruct (decide (tries < _retryTimes c)%nat) as [Hlt|_]; [lia|].
      exists []. cbn [length retried mbind list_bind app]. rewrite Nat.add_0_r, Hfirst, Hok0.
      split; [lia|]. split; [intros i r Hi; discriminate|]. split; [reflexivity|]. done.
  - exists []. cbn [length retried mbind list_bind app]. rewrite Nat.add_0_r, Hfirst.
    split; [lia|]. split; [intros i r Hi; discriminate|]. split; [reflexivity|].
    intros r. discriminate.
  - destruct (ok r0) eqn:Hok0.
    + exists []. cbn [length retried mbind list_bind app]. rewrite Nat.add_0_r, Hfirst, Hok0.
      split; [lia|]. split; [intros i r Hi; discriminate|]. split; [reflexivity|].
      intros r [= <-]. congruence.
    + destruct (decide (tries < _retryTimes c)%nat) as [_|Hge]; [|lia].
      destruct (IH (tries + 1)%nat
        ((log ++ [FetchCall (URL_href u) init]) ++
         [ConsoleWarn (errorMessage r0 +:+ "  Retrying request.")])%list)
        as (rs & Hlen & Hrs & Hrun & Hlast); [lia|lia|].
      rewrite transport_calls_warn, transport_calls_fetch in Hrs, Hrun, Hlast.
      exists (r0 :: rs). cbn [length]. split; [lia|]. split; [|split].
      * intros [|i] r Hi.
        -- injection Hi as <-. rewrite Nat.add_0_r. done.
        -- replace (transport_calls log + S i)%nat with (S (transport_calls log) + i)%nat by lia.
           by apply Hrs.
      * rewrite Hrun.
        replace (transport_calls log + S (length rs))%nat
          with (S (transport_calls log) + length rs)%nat by lia.
        f_equal. rewrite retried_cons. rewrite <- !app_assoc. reflexivity.
      * intros r Hr Hok.
        replace (transport_calls log + S (length rs))%nat
          with (S (transport_calls log) + length rs)%nat in Hr by lia.
        rewrite (Hlast r Hr Hok). reflexivity.
  - exists []. cbn [length retried mbind list_bind app]. rewrite Nat.add_0_r, Hfirst.
    split; [lia|]. split; [intros i r Hi; discriminate|]. split; [reflexivity|].
    intros r. discriminate.
Qed.

End RetryLog.

Lemma fetch_calls_transform_events (calls : list (nat * HttpRequest)) :
  fetch_calls (transform_events calls) = [].
Proof. induction calls as [|[fn r] calls IH]; [reflexivity|exact IH]. Qed.

Section LoopOutcome.
Context `{Platform}.

(** X1.  [httpGet] and [httpPost] never return a non-2xx response: what they
    return satisfies [response.ok]. *)
Theorem returned_response_is_2xx (c : HttpClient) (endpoint : string) (body : JSRecord)
    (log : list Event) :
  match (httpGet c endpoint body log).2 with
  | Fulfilled r => ok r = true
  | Rejected _ => True
  end /\
  match (httpPost c endpoint body log).2 with
  | Fulfilled r => ok r = true
  | Rejected _ => True
  end.
Proof.
  split.
  - rewrite httpGet_run.
    destruct (_requestAndRetry c _ 0 log).2 as [r|e] eqn:Hrun; [|done].
    exact (requestAndRetry_returns_ok c _ _ 0 log r eq_refl Hrun).
  - rewrite httpPost_run.
    destruct (_transform c (post_payload c endpoint body) log) as [log1 [flow|e]]; [|done].
    destruct (_requestAndRetry c _ 0 log1).2 as [r|e] eqn:Hrun; [|done].
    exact (requestAndRetry_returns_ok c _ _ 0 log1 r eq_refl Hrun).
Qed.

(** X2.  Where an error raised by the loop comes from: the URL could not be
    built; or a transport call, one of the first [_retryTimes + 1], did not
    complete; or the call number [_retryTimes + 1] was answered by a non-2xx
    response, from which the error is built.  The loop raises nothing else;
    in particular the "exceeded configured limit" error is out of reach. *)
Theorem raised_error_provenance (c : HttpClient) (url : string)
    (init : gmap string JSValue) (log : list Event) (e : JSError) :
  (_requestAndRetry c (fetch_at c url init) 0 log).2 = Rejected e ->
  URL_new url (Some (_host c)) = Rejected e \/
  exists (u : URL) (k : nat),
    URL_new url (Some (_host c)) = Fulfilled u /\
    (k <= _retryTimes c)%nat /\
    (_fetch c (transport_calls log + k) (URL_href u) init = Rejected e \/
     k = _retryTimes c /\
     exists r, _fetch c (transport_calls log + k) (URL_href u) init = Fulfilled r /\
               ok r = false /\ e = Error (errorMessage r)).
Proof.
  destruct (URL_new url (Some (_host c))) as [u|e0] eqn:Hu.
  - intros Hrun. right.
    destruct (retry_log c url init u Hu (_retryTimes c) 0 log)
      as (rs & Hlen & _ & Heq & Hlast); [lia|lia|].
    rewrite Heq in Hrun. cbn [snd] in Hrun.
    exists u, (length rs). split; [reflexivity|]. split; [exact Hlen|].
    destruct (_fetch c (transport_calls log + length rs) (URL_href u) init) as [r|e1] eqn:Hk.
    + destruct (ok r) eqn:Hok; [discriminate|]. injection Hrun as <-.
      right. split; [exact (Hlast r eq_refl Hok)|]. by exists r.
    + injection Hrun as <-. by left.
  - rewrite requestAndRetry_run, fetch_at_run, Hu.
    replace (_retryTimes c <? 0)%nat with false by (symmetry; apply Nat.ltb_ge; lia).
    cbn. intros [= <-]. by left.
Qed.


(** X4.  All the transport calls of one [httpGet], and of one [httpPost], carry
    the same URL and the same [init]: a retry resends the request as it
    was. *)
Theorem retries_resend_the_same_request (c : HttpClient) (endpoint : string)
    (body : JSRecord) (log : list Event) :
  (exists added,
     (httpGet c endpoint body log).1 = (log ++ added)%list /\
     forall x y, x ∈ fetch_calls added -> y ∈ fetch_calls added -> x = y) /\
  (exists added,
     (httpPost c endpoint body log).1 = (log ++ added)%list /\
     forall x y, x ∈ fetch_calls added -> y ∈ fetch_calls added -> x = y).
Proof.
  assert (Hloop : forall url init log0,
    exists added,
      (_requestAndRetry c (fetch_at c url init) 0 log0).1 = (log0 ++ added)%list /\
      forall x y, x ∈ fetch_calls added -> y ∈ fetch_calls added -> x = y).
  { intros url init log0.
    destruct (retry_events c url init _ 0 log0 eq_refl) as (added & Hlog & Hall).
    exists added. split; [exact Hlog|].
    assert (forall x, x ∈ fetch_calls added ->
              exists u0, URL_new url (Some (_host c)) = Fulfilled u0 /\
                         x = (URL_href u0, init)) as Hone.
    { clear Hlog. induction Hall as [|ev added Hev Hall IH].
      - intros x Hx. by apply elem_of_nil in Hx.
      - destruct Hev as [(u0 & Hu0 & ->)|(msg & ->)]; cbn.
        + intros x Hx. apply elem_of_cons in Hx as [->|Hx]; eauto.
        + exact IH. }
    intros x y Hx Hy.
    destruct (Hone x Hx) as (ux & Hux & ->), (Hone y Hy) as (uy & Huy & ->).
    congruence. }
  split.
  - rewrite httpGet_run. apply Hloop.
  - rewrite httpPost_run.
    pose proof (transform_run c (post_payload c endpoint body) log) as [Hlog _].
    destruct (_transform c (post_payload c endpoint body) log) as [log1 [flow|e]];
      cbn [fst] in Hlog; subst log1.
    + destruct (Hloop endpoint (post_init c (origin flow) (current flow))
                  (log ++ transform_events
                     (thread (_pipeline c) (post_payload c endpoint body)).1)%list)
        as (added & -> & Hsame).
      eexists. split; [by rewrite <- app_assoc|].
      intros x y. rewrite fetch_calls_app, fetch_calls_transform_events. exact (Hsame x y).
    + eexists. split; [reflexivity|].
      intros x y. rewrite fetch_calls_transform_events. intros Hx. by apply elem_of_nil in Hx.
Qed.

(** X5.  When the URL of the request cannot be built, [httpGet] raises the
    error of [URL] at once, and neither [httpGet] nor [httpPost] makes a
    transport call. *)
Theorem invalid_url_is_not_fetched (c : HttpClient) (endpoint : string) (body : JSRecord)
    (log : list Event) :
  (forall e,
     URL_new (query_url endpoint body) (Some (_host c)) = Rejected e ->
     httpGet c endpoint body log = (log, Rejected e)) /\
  (forall e,
     URL_new endpoint (Some (_host c)) = Rejected e ->
     fetch_calls (httpPost c endpoint body log).1 = fetch_calls log /\
     exists e', (httpPost c endpoint body log).2 = Rejected e').
Proof.
  assert (Hloop : forall url init log0 e,
    URL_new url (Some (_host c)) = Rejected e ->
    _requestAndRetry c (fetch_at c url init) 0 log0 = (log0, Rejected e)).
  { intros url init log0 e Hu. rewrite requestAndRetry_run, fetch_at_run, Hu.
    replace (_retryTimes c <? 0)%nat with false by (symmetry; apply Nat.ltb_ge; lia).
    reflexivity. }
  split.
  - intros e Hu. rewrite httpGet_run. by apply Hloop.
  - intros e Hu. rewrite httpPost_run.
    pose proof (transform_run c (post_payload c endpoint body) log) as [Hlog _].
    destruct (_transform c (post_payload c endpoint body) log) as [log1 [flow|e1]];
      cbn [fst] in Hlog; subst log1.
    + rewrite (Hloop _ _ _ e Hu). cbn [fst snd].
      rewrite fetch_calls_app, fetch_calls_transform_events, app_nil_r. eauto.
    + cbn [fst snd].
      rewrite fetch_calls_app, fetch_calls_transform_events, app_nil_r. eauto.
Qed.

End LoopOutcome.

Section LoopOutcomeSample.
#[local] Existing Instance Sample.platform.

(** Budget 2 against a server that refuses always: the error is the one
    built from the answer to the third call. *)
Lemma raised_error_provenance_witness :
  let c := Sample.client Sample.down 2 None [] in
  let e := Error (errorMessage (Sample.response 503 "Service Unavailable" "busy")) in
  (_requestAndRetry c (fetch_at c "/status" ∅) 0 []).2 = Rejected e /\
  exists k, k = 2%nat /\
    _fetch c k "https://astrox.app/status" ∅ =
      Fulfilled (Sample.response 503 "Service Unavailable" "busy").
Proof.
  intros c e.
  assert (Hyp : (_requestAndRetry c (fetch_at c "/status" ∅) 0 []).2 = Rejected e)
    by reflexivity.
  split; [exact Hyp|].
  destruct (raised_error_provenance c "/status" ∅ [] e Hyp)
    as [Hbad|(u & k & Hu & Hk & [Hrej|(Hlast & r & Hr & _)])].
  - discriminate Hbad.
  - discriminate Hrej.
  - exists k. split; [exact Hlast|]. reflexivity.
Defined.


(** [https://] has no host: no URL, no transport call. *)
Lemma invalid_url_is_not_fetched_witness :
  let c := Sample.client (Sample.flaky 0) 3 None [] in
  URL_new (query_url "https://" []) (Some (_host c)) = Rejected (TypeError "Invalid URL") /\
  httpGet c "https://" [] [] = ([], Rejected (TypeError "Invalid URL")) /\
  fetch_calls (httpPost c "https://" [] []).1 = [].
Proof.
  intros c.
  assert (Hyp : URL_new (query_url "https://" []) (Some (_host c)) =
                  Rejected (TypeError "Invalid URL")) by reflexivity.
  split; [exact Hyp|].
  destruct (invalid_url_is_not_fetched c "https://" [] []) as [Hget Hpost].
  split; [exact (Hget _ Hyp)|].
  exact (proj1 (Hpost _ Hyp)).
Defined.

End LoopOutcomeSample.

(** * Further properties of construction *)

Lemma substring_0_0 (s : string) : String.substring 0 0 s = "".
Proof. by destruct s. Qed.

Lemma substring_0_all (s : string) : String.substring 0 (String.length s) s = s.
Proof.
  induction s as [|a s IH]; [reflexivity|].
  cbn [String.length String.substring]. by rewrite IH.
Qed.

Lemma substring_split (k : nat) :
  forall s : string,
    (k <= String.length s)%nat ->
    s = String.substring 0 k s +:+ String.substring k (String.length s - k) s.
Proof.
  induction k as [|k IH]; intros s Hk.
  - rewrite substring_0_0, Nat.sub_0_r, substring_0_all. reflexivity.
  - destruct s as [|a s]; cbn [String.length] in Hk; [lia|].
    cbn [String.length String.substring Nat.sub].
    change (String a ?x +:+ ?y) with (String a (x +:+ y)).
    rewrite <- IH by lia. reflexivity.
Qed.

Lemma length_append (s1 s2 : string) :
  String.length (s1 +:+ s2) = (String.length s1 + String.length s2)%nat.
Proof.
  induction s1 as [|a s1 IH]; [reflexivity|].
  change (String a s1 +:+ s2) with (String a (s1 +:+ s2)).
  cbn [String.length]. by rewrite IH.
Qed.

Lemma substring_append_r (s1 s2 : string) :
  String.substring (String.length s1) (String.length s2) (s1 +:+ s2) = s2.
Proof.
  induction s1 as [|a s1 IH]; [apply substring_0_all|].
  change (String a s1 +:+ s2) with (String a (s1 +:+ s2)).
  cbn [String.length String.substring]. exact IH.
Qed.

(** [s.endsWith(suffix)] holds exactly when [s] is some string followed by
    [suffix]. *)
Lemma endsWith_spec (s suffix : string) :
  endsWith s suffix = true <-> exists p : string, s = p +:+ suffix.
Proof.
  unfold endsWith. split.
  - destruct (String.length suffix <=? String.length s)%nat eqn:Hle; [|discriminate].
    apply Nat.leb_le in Hle. intros Heq. apply String.eqb_eq in Heq.
    exists (String.substring 0 (String.length s - String.length suffix) s).
    pose proof (substring_split (String.length s - String.length suffix) s) as Hsplit.
    replace (String.length s - (String.length s - String.length suffix))%nat
      with (String.length suffix) in Hsplit by lia.
    rewrite Heq in Hsplit. apply Hsplit. lia.
  - intros [p ->]. rewrite length_append.
    replace (String.length suffix <=? String.length p + String.length suffix)%nat
      with true by (symmetry; apply Nat.leb_le; lia).
    replace (String.length p + String.length suffix - String.length suffix)%nat
      with (String.length p) by lia.
    rewrite substring_append_r. apply String.eqb_refl.
Qed.

(** X6.  [isLocal()] holds exactly for the hostname [127.0.0.1] and for the
    hostnames that end in [localhost], such as [localhost] itself and
    [app.localhost], and also a name like [notlocalhost]. *)
Theorem isLocal_spec (c : HttpClient) :
  isLocal c = true <->
  hostname (_host c) = "127.0.0.1" \/
  exists p : string, hostname (_host c) = p +:+ "localhost".
Proof.
  unfold isLocal. rewrite orb_true_iff, String.eqb_eq, endsWith_spec. reflexivity.
Qed.

(** [/^[a-z]+:/]: the strings that begin with one or more letters a-z
    followed by a colon. *)
Lemma match_scheme_spec (s : string) :
  forall seen : bool,
    match_scheme seen s = true <->
    exists letters rest : string,
      s = letters +:+ ":" +:+ rest /\
      forallb is_lower (String.list_ascii_of_string letters) = true /\
      (seen = true \/ letters <> "").
Proof.
  induction s as [|a s IH]; intros seen; cbn [match_scheme].
  - split; [discriminate|]. intros (letters & rest & Hs & _).
    destruct letters; discriminate.
  - destruct (is_lower a) eqn:Ha.
    + rewrite IH. split.
      * intros (letters & rest & -> & Hall & _).
        exists (String a letters), rest. split; [reflexivity|]. split; [|by right].
        cbn. by rewrite Ha, Hall.
      * intros (letters & rest & Hs & Hall & Hseen).
        destruct letters as [|b letters].
        -- injection Hs as -> ->. discriminate Ha.
        -- injection Hs as -> ->. exists letters, rest.
           cbn in Hall. rewrite Ha in Hall. split; [reflexivity|]. split; [exact Hall|by left].
    + split.
      * intros Hand. apply andb_true_iff in Hand as [-> Hcolon].
        apply Ascii.eqb_eq in Hcolon as ->.
        exists "", s. split; [reflexivity|]. split; [reflexivity|by left].
      * intros (letters & rest & Hs & Hall & Hseen).
        destruct letters as [|b letters].
        -- injection Hs as -> ->. destruct Hseen as [->|Hne]; [reflexivity|done].
        -- injection Hs as -> ->. cbn in Hall. rewrite Ha in Hall. discriminate.
Qed.

Section ConstructionMore.
Context `{Platform}.

(** X7.  [getDefaultFetch] returns the [fetch] of the first context that exists
    among [window], [global] and [self], in this order, and raises otherwise.
    What it raises is made by [new HttpDefaultFetchError(...)], and is an
    [AgentError] at run time (the constructor of [AgentError] resets the
    prototype), with the message of the context that was probed.  A context
    that exists without a [fetch] is not passed over: with a [window] that has
    no [fetch] the function raises, whatever [global] and [self] hold. *)
Theorem default_fetch_probing :
  (forall f,
     getDefaultFetch = Fulfilled f <->
     (exists w, window = Some w /\ window_fetch w = Some f) \/
     (window = None /\ exists g, global = Some g /\ global_fetch g = Some f) \/
     (window = None /\ global = None /\ exists s, self = Some s /\ global_fetch s = Some f)) /\
  (forall e, getDefaultFetch = Rejected e -> exists msg, e = AgentError msg) /\
  (forall w,
     window = Some w -> window_fetch w = None ->
     getDefaultFetch = Rejected (AgentError
       "Fetch implementation was not available. You appear to be in a browser context, but window.fetch was not present.")) /\
  (forall g,
     window = None -> global = Some g -> global_fetch g = None ->
     getDefaultFetch = Rejected (AgentError
       "Fetch implementation was not available. You appear to be in a Node.js context, but global.fetch was not available.")) /\
  (window = None -> global = None -> self ≫= global_fetch = None ->
     getDefaultFetch = Rejected (AgentError
       "Fetch implementation was not available. Please provide fetch to the HttpAgent constructor, or ensure it is available in the window or global context.")).
Proof.
  unfold getDefaultFetch. split; [|split; [|split; [|split]]].
  - intros f. destruct window as [w|].
    + destruct (window_fetch w) as [f'|] eqn:Hw.
      * split.
        -- intros [= ->]. left. eauto.
        -- intros [(w' & [= <-] & Hf)|[[? _]|[? _]]]; [congruence|done|done].
      * split; [discriminate|].
        intros [(w' & [= <-] & Hf)|[[? _]|[? _]]]; [congruence|done|done].
    + destruct global as [g|].
      * destruct (global_fetch g) as [f'|] eqn:Hg.
        -- split.
           ++ intros [= ->]. right. left. eauto.
           ++ intros [(w' & ? & _)|[(_ & g' & [= <-] & Hf)|(_ & ? & _)]];
                [done|congruence|done].
        -- split; [discriminate|].
           intros [(w' & ? & _)|[(_ & g' & [= <-] & Hf)|(_ & ? & _)]];
             [done|congruence|done].
      * destruct self as [s|]; cbn [mbind option_bind].
        -- destruct (global_fetch s) as [f'|] eqn:Hs.
           ++ split.
              ** intros [= ->]. right. right. eauto.
              ** intros [(w' & ? & _)|[(_ & g' & ? & _)|(_ & _ & s' & [= <-] & Hf)]];
                   [done|done|congruence].
           ++ split; [discriminate|].
              intros [(w' & ? & _)|[(_ & g' & ? & _)|(_ & _ & s' & [= <-] & Hf)]];
                [done|done|congruence].
        -- split; [discriminate|].
           intros [(w' & ? & _)|[(_ & g' & ? & _)|(_ & _ & s' & ? & _)]]; done.
  - intros e.
    destruct window as [w|]; [destruct (window_fetch w)|destruct global as [g|];
      [destruct (global_fetch g)|destruct (self ≫= global_fetch)]];
      intros [= <-]; unfold HttpDefaultFetchError; eauto; discriminate.
  - intros w -> ->. reflexivity.
  - intros g -> -> ->. reflexivity.
  - intros -> -> ->. reflexivity.
Qed.

(** X8.  How construction fails: with the error of [getDefaultFetch], when no
    [fetch] is given and none is found, whatever the host is; otherwise with
    the error of the host resolution.  Without a host and without a page, that
    error is "Must specify a host to connect to." *)
Theorem constructor_failures (options : HttpAgentOptions) :
  (forall e,
     constructor options = Rejected e <->
     (fetch options = None /\ getDefaultFetch = Rejected e) \/
     ((is_Some (fetch options) \/ exists f, getDefaultFetch = Fulfilled f) /\
      resolve_host options = Rejected e)) /\
  (host options = None -> window = None ->
   resolve_host options = Rejected (Error "Must specify a host to connect to.")) /\
  (forall f, fetch options = Some f ->
     forall c, constructor options = Fulfilled c -> _fetch c = f).
Proof.
  split; [|split].
  - intros e. rewrite constructor_run.
    destruct (fetch options) as [f|] eqn:Hf.
    + destruct (resolve_host options) as [u|e'] eqn:Hu.
      * split; [discriminate|]. intros [[? _]|[_ ?]]; discriminate.
      * split.
        -- intros [= ->]. right. split; [left; eauto|reflexivity].
        -- intros [[? _]|[_ [= ->]]]; [discriminate|reflexivity].
    + destruct getDefaultFetch as [f|e'] eqn:Hd.
      * destruct (resolve_host options) as [u|e''] eqn:Hu.
        -- split; [discriminate|]. intros [[_ ?]|[_ ?]]; discriminate.
        -- split.
           ++ intros [= ->]. right. split; [right; eauto|reflexivity].
           ++ intros [[_ ?]|[_ [= ->]]]; [discriminate|reflexivity].
      * split.
        -- intros [= ->]. by left.
        -- intros [[_ [= ->]]|[[[? ?]|[? ?]] _]]; [reflexivity|discriminate|discriminate].
  - intros Hhost Hwin. unfold resolve_host. by rewrite Hhost, Hwin.
  - intros f Hf c. rewrite constructor_run, Hf.
    destruct (resolve_host options); [|discriminate]. by intros [= <-].
Qed.

Lemma httpPost_bound (c : HttpClient) (endpoint : string) (body : JSRecord)
    (log : list Event) :
  (transport_calls (httpPost c endpoint body log).1
     <= transport_calls log + _retryTimes c + 1)%nat.
Proof.
  rewrite httpPost_run.
  pose proof (transform_run c (post_payload c endpoint body) log) as [Hlog _].
  destruct (_transform c (post_payload c endpoint body) log) as [log1 [flow|e]];
    cbn [fst] in Hlog; subst log1.
  - etransitivity; [apply (retry_bound c _ _ (_retryTimes c - 0) 0 _ eq_refl)|].
    rewrite transport_calls_transform_events. lia.
  - cbn [fst]. rewrite transport_calls_transform_events. lia.
Qed.

(** X9.  A client constructed without [retryTimes] makes at most 4 transport
    calls for one [httpGet] or [httpPost]; one constructed with
    [retryTimes = n] makes at most [n + 1], for every [n], 0 included. *)
Theorem constructed_client_call_bound (options : HttpAgentOptions) (c : HttpClient) :
  constructor options = Fulfilled c ->
  let n := match retryTimes options with Some n => n | None => 3%nat end in
  _retryTimes c = n /\
  forall endpoint body log,
    (transport_calls (httpGet c endpoint body log).1 <= transport_calls log + n + 1)%nat /\
    (transport_calls (httpPost c endpoint body log).1 <= transport_calls log + n + 1)%nat.
Proof.
  intros Hc n.
  destruct (constructor_fields options c Hc) as (_ & _ & _ & _ & Hn).
  fold n in Hn. split; [exact Hn|]. intros endpoint body log. rewrite <- Hn. split.
  - rewrite httpGet_run.
    pose proof (retry_bound c (query_url endpoint body) (get_init c (get_headers c))
                  (_retryTimes c - 0) 0 log eq_refl). lia.
  - apply httpPost_bound.
Qed.

(** X10.  The host of a constructed client never ends with [.astrox.app]: its
    hostname is that of the resolved URL when this one does not end with
    [.astrox.app], and [astrox.app] when it does, that is when it is
    [p.astrox.app] for some [p] (the empty [p] included). *)
Theorem constructed_host_is_canonical (options : HttpAgentOptions) (c : HttpClient) (u : URL) :
  constructor options = Fulfilled c ->
  resolve_host options = Fulfilled u ->
  endsWith (hostname (_host c)) ".astrox.app" = false /\
  ((exists p, hostname u = p +:+ ".astrox.app") -> hostname (_host c) = "astrox.app") /\
  (~ (exists p, hostname u = p +:+ ".astrox.app") -> _host c = u).
Proof.
  intros Hc Hu. rewrite constructor_run, Hu in Hc.
  destruct (match fetch options with Some f => Fulfilled f | None => getDefaultFetch end);
    [|discriminate].
  injection Hc as <-. cbn [_host].
  change API_SUB_DOMAIN with ".astrox.app". change API_DOMAIN with "astrox.app".
  rewrite <- endsWith_spec.
  destruct (endsWith (hostname u) ".astrox.app") eqn:Hends.
  - split; [reflexivity|]. split; [reflexivity|]. intros Hn. by destruct Hn.
  - split; [exact Hends|]. split; [discriminate|reflexivity].
Qed.

(** X11.  Which URL the constructor parses for a given host: the host itself when
    it begins with one or more letters a-z followed by a colon, or when there
    is no page; otherwise the host behind the protocol of the page and [//].
    So [localhost:8000] is parsed as it is, with [localhost] for a scheme,
    and [HTTPS://h] is put behind the protocol of the page. *)
Theorem host_scheme_test (options : HttpAgentOptions) (h : string) :
  host options = Some h ->
  ((exists letters rest,
      h = letters +:+ ":" +:+ rest /\ letters <> "" /\
      forallb is_lower (String.list_ascii_of_string letters) = true) ->
   resolve_host options = URL_new h None) /\
  (window = None -> resolve_host options = URL_new h None) /\
  (forall w,
     window = Some w ->
     ~ (exists letters rest,
          h = letters +:+ ":" +:+ rest /\ letters <> "" /\
          forallb is_lower (String.list_ascii_of_string letters) = true) ->
     resolve_host options =
       URL_new (location_protocol (location w) +:+ "//" +:+ h) None).
Proof.
  intros Hh. unfold resolve_host. rewrite Hh.
  assert (Hspec : match_scheme false h = true <->
            exists letters rest,
              h = letters +:+ ":" +:+ rest /\ letters <> "" /\
              forallb is_lower (String.list_ascii_of_string letters) = true).
  { rewrite match_scheme_spec. split.
    - intros (letters & rest & H1 & H2 & [?|H3]); [discriminate|]. eauto 6.
    - intros (letters & rest & H1 & H2 & H3). eauto 7. }
  split; [|split].
  - intros Hscheme. apply Hspec in Hscheme. rewrite Hscheme.
    by destruct window.
  - by intros ->.
  - intros w -> Hnot. destruct (match_scheme false h) eqn:Hm; [|reflexivity].
    exfalso. apply Hnot, Hspec. reflexivity.
Qed.

End ConstructionMore.

Section ConstructionMoreSample.

(** No [retryTimes]: the budget is 3, and a server that refuses always gets
    4 calls. *)
Lemma constructed_client_call_bound_witness :
  let options := Sample.options Sample.down "https://x.astrox.app" None None in
  let c := Sample.client Sample.down 3 None [] in
  @constructor Sample.platform options = Fulfilled c /\
  _retryTimes c = 3%nat /\
  (transport_calls (@httpGet Sample.platform c "/status" [] []).1 <= 0 + 3 + 1)%nat /\
  transport_calls (@httpGet Sample.platform c "/status" [] []).1 = 4%nat.
Proof.
  intros options c.
  assert (Hyp : @constructor Sample.platform options = Fulfilled c) by reflexivity.
  split; [exact Hyp|].
  destruct (@constructed_client_call_bound Sample.platform options c Hyp) as [Hn Hbound].
  split; [exact Hn|]. split; [exact (proj1 (Hbound "/status" [] []))|reflexivity].
Defined.

Lemma constructed_host_is_canonical_witness :
  let options := Sample.options (Sample.flaky 0) "https://x.astrox.app" None None in
  let c := Sample.client (Sample.flaky 0) 3 None [] in
  let u := {| protocol := "https:"; hostname := "x.astrox.app"; port := "";
              pathname := "/"; search := ""; hash := "" |} in
  (@constructor Sample.platform options = Fulfilled c /\
   @resolve_host Sample.platform options = Fulfilled u) /\
  endsWith (hostname (_host c)) ".astrox.app" = false /\
  hostname (_host c) = "astrox.app".
Proof.
  intros options c u.
  assert (Hyp : @constructor Sample.platform options = Fulfilled c /\
                @resolve_host Sample.platform options = Fulfilled u)
    by (split; reflexivity).
  split; [exact Hyp|].
  destruct (@constructed_host_is_canonical Sample.platform options c u
              (proj1 Hyp) (proj2 Hyp)) as (Hcanon & Hsub & _).
  split; [exact Hcanon|]. apply Hsub. by exists "x".
Defined.

(** In a page served over https, the bare host [node.example] is parsed as
    [https://node.example], and [localhost:8000] as it is. *)
Lemma host_scheme_test_witness :
  let P := Sample.browser (Sample.flaky 0) in
  let bare := Sample.options (Sample.flaky 0) "node.example" None None in
  let ported := Sample.options (Sample.flaky 0) "localhost:8000" None None in
  (host bare = Some "node.example" /\ host ported = Some "localhost:8000") /\
  @resolve_host P bare = @URL_new P "https://node.example" None /\
  @resolve_host P ported = @URL_new P "localhost:8000" None.
Proof.
  intros P bare ported.
  assert (Hyp : host bare = Some "node.example" /\ host ported = Some "localhost:8000")
    by (split; reflexivity).
  split; [exact Hyp|]. split.
  - destruct (@host_scheme_test P bare "node.example" (proj1 Hyp)) as (_ & _ & Hbare).
    apply (Hbare _ eq_refl).
    intros (letters & rest & H1 & H2 & H3).
    assert (match_scheme false "node.example" = true) as Hm
      by (apply match_scheme_spec; eauto 7).
    discriminate Hm.
  - destruct (@host_scheme_test P ported "localhost:8000" (proj2 Hyp)) as (Hscheme & _).
    apply Hscheme. exists "localhost", "8000". split; [reflexivity|]. split; [discriminate|reflexivity].
Defined.

End ConstructionMoreSample.

(** * Further properties of requests and of the pipeline *)

Section RequestsMore.
Context `{Platform}.

(** The transport calls the loop makes, all at once: each carries the
    [init] of the request and its URL, resolved against the host. *)
Lemma retry_fetch_calls (c : HttpClient) (url : string) (init : gmap string JSValue)
    (log : list Event) :
  exists added : list Event,
    (_requestAndRetry c (fetch_at c url init) 0 log).1 = (log ++ added)%list /\
    forall url' init',
      (url', init') ∈ fetch_calls added ->
      init' = init /\
      exists u, URL_new url (Some (_host c)) = Fulfilled u /\ url' = URL_href u.
Proof.
  destruct (retry_events c url init _ 0 log eq_refl) as (added & Hlog & Hall).
  exists added. split; [exact Hlog|]. clear Hlog.
  induction Hall as [|e added He Hall IH].
  - intros url' init' Hin. by apply elem_of_nil in Hin.
  - destruct He as [(u & Hu & ->)|(msg & ->)]; cbn.
    + intros url' init' Hin.
      apply elem_of_cons in Hin as [Heq|Hin]; [|eauto].
      injection Heq as -> ->. eauto.
    + exact IH.
Qed.


(** X13.  Every field of the client's [fetchOptions] reaches every transport call
    of [httpGet] as it is; this goes for a [headers] field too, which then
    stands in place of the headers [httpGet] built.  Apart from [headers],
    [httpGet] adds no field of its own. *)
Theorem get_sends_fetchOptions (c : HttpClient) (endpoint : string) (body : JSRecord)
    (log : list Event) :
  exists added,
    (httpGet c endpoint body log).1 = (log ++ added)%list /\
    forall url init,
      (url, init) ∈ fetch_calls added ->
      (forall k v, default ∅ (_fetchOptions c) !! k = Some v -> init !! k = Some v) /\
      (forall k, k <> "headers" -> init !! k = default ∅ (_fetchOptions c) !! k) /\
      (default ∅ (_fetchOptions c) !! "headers" = None ->
         init !! "headers" = Some (JSObject (get_headers c))).
Proof.
  rewrite httpGet_run.
  destruct (retry_fetch_calls c (query_url endpoint body) (get_init c (get_headers c)) log)
    as (added & Hrun & Hcalls).
  exists added. split; [exact Hrun|].
  intros url init Hin. destruct (Hcalls url init Hin) as (-> & _).
  unfold get_init. split; [|split].
  - intros k v Hk. by apply lookup_union_Some_l.
  - intros k Hk. destruct (default ∅ (_fetchOptions c) !! k) as [v|] eqn:Hl.
    + by apply lookup_union_Some_l.
    + rewrite lookup_union_r by exact Hl. by apply lookup_singleton_ne.
  - intros Hnone. rewrite lookup_union_r by exact Hnone. apply lookup_singleton_eq.
Qed.

(** X14.  When no transform writes to its argument, every field of the client's
    [callOptions] other than [method], [headers] and [body] reaches every
    transport call of [httpPost] as it is, and [httpPost] adds no other
    field. *)
Theorem post_sends_callOptions (c : HttpClient) (endpoint : string) (body0 : JSRecord)
    (log : list Event) :
  (forall fn r, fn ∈ _pipeline c -> argument_after (fn_call fn r) = r) ->
  exists added,
    (httpPost c endpoint body0 log).1 = (log ++ added)%list /\
    forall url init,
      (url, init) ∈ fetch_calls added ->
      forall k, k <> "body" -> k <> "method" -> k <> "headers" ->
        init !! k = default ∅ (_callOptions c) !! k.
Proof.
  intros Hpure. rewrite httpPost_run.
  pose proof (transform_run c (post_payload c endpoint body0) log) as [Hlog _].
  destruct (_transform c (post_payload c endpoint body0) log) as [log1 [flow|e]] eqn:Htr;
    cbn [fst] in Hlog.
  - assert (origin flow = post_payload c endpoint body0) as Horigin.
    { unfold _transform in Htr.
      exact (then_chain_origin (_pipeline c) Hpure _ log log log1
               {| origin := post_payload c endpoint body0; other := None |} flow
               eq_refl Htr). }
    destruct (retry_fetch_calls c endpoint (post_init c (origin flow) (current flow)) log1)
      as (added & Hrun & Hcalls).
    exists (transform_events (thread (_pipeline c) (post_payload c endpoint body0)).1
            ++ added)%list.
    split; [by rewrite Hrun, Hlog, <- app_assoc|].
    intros url init. rewrite fetch_calls_app, fetch_calls_transform_events. cbn [app].
    intros Hin k Hbody Hmethod Hheaders. destruct (Hcalls url init Hin) as (-> & _).
    unfold post_init. rewrite Horigin. cbn [post_payload request].
    rewrite lookup_insert_ne by done. apply lookup_union_r.
    rewrite lookup_insert_ne by done. by apply lookup_singleton_ne.
  - exists (transform_events (thread (_pipeline c) (post_payload c endpoint body0)).1).
    split; [exact Hlog|].
    intros url init. rewrite fetch_calls_transform_events.
    intros Hin. by apply elem_of_nil in Hin.
Qed.

End RequestsMore.

Lemma thread_rejected (pre : list HttpAgentRequestTransformFn) :
  forall (fn : HttpAgentRequestTransformFn) (post : list HttpAgentRequestTransformFn)
         (r0 r : HttpRequest) (calls : list (nat * HttpRequest)) (e : JSError),
    thread pre r0 = (calls, Fulfilled r) ->
    settled (fn_call fn r) = Rejected e ->
    thread (pre ++ fn :: post) r0 = ((calls ++ [(fn_ref fn, r)])%list, Rejected e).
Proof.
  induction pre as [|g pre IH]; intros fn post r0 r calls e Hpre Hfn.
  - cbn in Hpre. injection Hpre as <- <-. cbn [app thread]. by rewrite Hfn.
  - cbn [app thread] in *. destruct (settled (fn_call g r0)) as [res|e0]; [|discriminate].
    destruct (thread pre (produced g r0)) as [calls' out] eqn:Hrest.
    injection Hpre as <- ->.
    rewrite (IH fn post _ r calls' e Hrest Hfn). reflexivity.
Qed.

Section PipelineMore.
Context `{Platform}.

(** X15.  When a transform of the pipeline fails, [httpPost] fails with the same
    error; the transforms after it are not invoked and no transport call is
    made. *)
Theorem failing_transform_aborts_post (c : HttpClient) (endpoint : string)
    (body0 : JSRecord) (log : list Event)
    (pre post : list HttpAgentRequestTransformFn) (fn : HttpAgentRequestTransformFn)
    (calls : list (nat * HttpRequest)) (r : HttpRequest) (e : JSError) :
  _pipeline c = (pre ++ fn :: post)%list ->
  thread pre (post_payload c endpoint body0) = (calls, Fulfilled r) ->
  settled (fn_call fn r) = Rejected e ->
  httpPost c endpoint body0 log =
    ((log ++ transform_events calls ++ [TransformCall (fn_ref fn) r])%list, Rejected e).
Proof.
  intros Hpipe Hpre Hfn. rewrite httpPost_run.
  pose proof (transform_run c (post_payload c endpoint body0) log) as [Hlog Hout].
  rewrite Hpipe, (thread_rejected pre fn post _ r calls e Hpre Hfn) in Hlog, Hout.
  cbn [fst snd] in Hlog, Hout.
  destruct (_transform c (post_payload c endpoint body0) log) as [log1 [flow|e1]];
    cbn [fst snd] in Hlog, Hout; [discriminate|].
  injection Hout as ->. subst log1.
  unfold transform_events. rewrite fmap_app. reflexivity.
Qed.

End PipelineMore.

Section RequestsMoreSample.
#[local] Existing Instance Sample.platform.

(** Call options [{mode: 'cors', method: 'GET'}]: [mode] goes out, the
    method stays POST. *)
Lemma post_sends_callOptions_witness :
  let call := {[ "mode" := JSString "cors"; "method" := JSString "GET" ]} in
  let c := Sample.client_with (Sample.flaky 0) None (Some call) [Sample.silent 7] in
  (forall fn r, fn ∈ _pipeline c -> argument_after (fn_call fn r) = r) /\
  (exists added,
     (httpPost c "/call" [] []).1 = added /\
     forall url init,
       (url, init) ∈ fetch_calls added -> init !! "mode" = Some (JSString "cors")) /\
  (fun x => x.2 !! "method") <$> fetch_calls (httpPost c "/call" [] []).1 =
    [Some (JSString "POST")].
Proof.
  intros call c.
  assert (Hyp : forall fn r, fn ∈ _pipeline c -> argument_after (fn_call fn r) = r).
  { intros fn r Hin. apply list_elem_of_singleton in Hin. subst fn. reflexivity. }
  split; [exact Hyp|]. split; [|vm_compute; reflexivity].
  destruct (post_sends_callOptions c "/call" [] [] Hyp) as (added & Hlog & Hcalls).
  exists added. split; [exact Hlog|].
  intros url init Hin. rewrite (Hcalls url init Hin "mode") by discriminate.
  reflexivity.
Defined.

(** The second of three transforms fails: the third is not invoked, and
    nothing is sent. *)
Lemma failing_transform_aborts_post_witness :
  let boom := TypeError "cannot sign" in
  let c := Sample.client (Sample.flaky 0) 3 None
             [Sample.silent 7; Sample.failing 8 boom; Sample.silent 9] in
  let payload := post_payload c "/call" [] in
  (_pipeline c = ([Sample.silent 7] ++ Sample.failing 8 boom :: [Sample.silent 9])%list /\
   thread [Sample.silent 7] payload = ([(7%nat, payload)], Fulfilled payload) /\
   settled (fn_call (Sample.failing 8 boom) payload) = Rejected boom) /\
  httpPost c "/call" [] [] =
    ([TransformCall 7 payload; TransformCall 8 payload], Rejected boom).
Proof.
  intros boom c payload.
  assert (Hyp : _pipeline c =
                  ([Sample.silent 7] ++ Sample.failing 8 boom :: [Sample.silent 9])%list /\
                thread [Sample.silent 7] payload = ([(7%nat, payload)], Fulfilled payload) /\
                settled (fn_call (Sample.failing 8 boom) payload) = Rejected boom)
    by (split; [reflexivity|split; reflexivity]).
  split; [exact Hyp|].
  exact (failing_transform_aborts_post c "/call" [] [] _ _ _ _ _ _
           (proj1 Hyp) (proj1 (proj2 Hyp)) (proj2 (proj2 Hyp))).
Defined.

End RequestsMoreSample.

(** * Further properties of [addTransform] and of the enumeration *)

(** X16.  One call of [addTransform] adds the function to the pipeline, once,
    and takes nothing out; the entries that were there keep their order;
    nothing but the pipeline changes in the client, and in the store nothing
    but the priority of the function, which becomes the one of the call. *)
Theorem addTransform_frame (fn : HttpAgentRequestTransformFn) (priority : option Z)
    (store : gmap nat Z) (c : HttpClient) :
  let store' := (addTransform fn priority store c).1 in
  let c' := (addTransform fn priority store c).2 in
  _pipeline c' ≡ₚ fn :: _pipeline c /\
  (forall a b, before a b (_pipeline c) -> before a b (_pipeline c')) /\
  priority_in store' fn =
    match priority with Some p => p | None => priority_in store fn end /\
  (forall r, r <> fn_ref fn -> store' !! r = store !! r) /\
  (_fetch c', _fetchOptions c', _callOptions c', _host c', _credentials c', _retryTimes c') =
  (_fetch c, _fetchOptions c, _callOptions c, _host c, _credentials c, _retryTimes c).
Proof.
  intros store' c'. subst store' c'.
  destruct (addTransform_run fn priority store c) as (s & Hs & -> & _ & _).
  cbn [fst snd set_pipeline _pipeline]. split; [apply splice_perm|].
  split; [intros a b; by apply splice_before|]. split; [|split; [|reflexivity]].
  - unfold priority_in at 1. rewrite priority_insert_same. reflexivity.
  - intros r Hr. by rewrite lookup_insert_ne.
Qed.

(** X17.  A function registered with a priority above all those in the pipeline
    goes to the front; one registered with a priority that none in the
    pipeline is below goes to the end.  Both hold for the empty pipeline. *)
Theorem addTransform_extremes (fn : HttpAgentRequestTransformFn) (priority : option Z)
    (store : gmap nat Z) (c : HttpClient) :
  let p := match priority with Some p => p | None => priority_in store fn end in
  let c' := (addTransform fn priority store c).2 in
  (Forall (fun x => (priority_in store x < p)%Z) (_pipeline c) ->
     _pipeline c' = fn :: _pipeline c) /\
  (Forall (fun x => (p <= priority_in store x)%Z) (_pipeline c) ->
     _pipeline c' = (_pipeline c ++ [fn])%list).
Proof.
  intros p c'. subst c'.
  destruct (addTransform_run fn priority store c) as (s & Hs & -> & Htake & Hdrop).
  cbn [snd set_pipeline _pipeline]. fold (priority_in store fn) in Htake, Hdrop.
  fold p in Htake, Hdrop. split.
  - intros Hall. destruct s as [|s]; [reflexivity|]. exfalso.
    destruct (_pipeline c) as [|x l]; cbn [length] in Hs; [lia|].
    cbn [take] in Htake. apply Forall_cons in Htake as [Hx _].
    apply Forall_cons in Hall as [Hx' _]. lia.
  - intros Hall. destruct (drop s (_pipeline c)) as [|y rest] eqn:Hrest.
    + apply drop_nil_inv in Hrest. unfold splice.
      rewrite take_ge, drop_ge by lia. reflexivity.
    + exfalso. assert (y ∈ _pipeline c) as Hy.
      { apply (list_elem_of_lookup_2 _ s). rewrite <- (Nat.add_0_r s), <- lookup_drop, Hrest.
        reflexivity. }
      rewrite Forall_forall in Hall. specialize (Hall y Hy). cbv beta in Hall. lia.
Qed.

(** X18.  The order in which [httpGet] writes the parameters: first the keys
    that are array indices, in ascending numeric order whatever the order of
    their creation, then the other keys. *)
Theorem query_indices_first_ascending (endpoint : string) (body : JSRecord) :
  exists indices others : list string,
    for_in body = (indices ++ others)%list /\
    query_url endpoint body =
      endpoint +:+ query_string ((fun k => (k, get_property body k)) <$> (indices ++ others)%list) /\
    StronglySorted
      (fun a b => exists m n, array_index a = Some m /\ array_index b = Some n /\ (m <= n)%N)
      indices /\
    Forall (fun k => is_Some (array_index k)) indices /\
    Forall (fun k => array_index k = None) others.
Proof.
  exists (foldr insert_by_index []
            (omap (fun k => n ← array_index k; Some (n, k)) body.*1)).*2,
         (filter (fun k => array_index k = None) body.*1).
  split; [reflexivity|]. split; [apply query_url_pairs|].
  pose proof (indices_are_indices body.*1) as Hidx.
  rewrite <- sort_by_index_perm in Hidx.
  pose proof (sort_by_index_sorted
                (omap (fun k => n ← array_index k; Some (n, k)) body.*1)) as Hsorted.
  split; [|split].
  - apply (StronglySorted_fmap snd
             (fun a b : N * string =>
                array_index a.2 = Some a.1 /\ array_index b.2 = Some b.1 /\ (a.1 <= b.1)%N)).
    + intros a b (Ha & Hb & Hab). eauto.
    + eapply StronglySorted_ext; [|exact Hsorted].
      rewrite Forall_forall in Hidx.
      intros a b Ha Hb Hab. cbv beta. auto.
  - apply Forall_fmap. eapply Forall_impl; [exact Hidx|].
    intros a Ha. cbv beta in Ha. unfold compose. rewrite Ha. eauto.
  - apply Forall_forall. intros k Hk. by apply list_elem_of_filter in Hk as [Hk _].
Qed.

(** Priority 7 against [5, 3]: to the front.  Priority 3 against [5, 3]:
    to the end, after the entry of equal priority. *)
Lemma addTransform_extremes_witness :
  let c := Sample.client (Sample.flaky 0) 3 None [Sample.silent 0; Sample.silent 1] in
  let store : gmap nat Z := {[ 0%nat := 5%Z; 1%nat := 3%Z ]} in
  (Forall (fun x => (priority_in store x < 7)%Z) (_pipeline c) /\
   Forall (fun x => (3 <= priority_in store x)%Z) (_pipeline c)) /\
  fn_ref <$> _pipeline (addTransform (Sample.silent 2) (Some 7%Z) store c).2 = [2; 0; 1]%nat /\
  fn_ref <$> _pipeline (addTransform (Sample.silent 2) (Some 3%Z) store c).2 = [0; 1; 2]%nat.
Proof.
  intros c store.
  assert (Hyp : Forall (fun x => (priority_in store x < 7)%Z) (_pipeline c) /\
                Forall (fun x => (3 <= priority_in store x)%Z) (_pipeline c)).
  { split; repeat constructor; vm_compute; congruence. }
  split; [exact Hyp|]. split.
  - rewrite (proj1 (addTransform_extremes (Sample.silent 2) (Some 7%Z) store c) (proj1 Hyp)).
    reflexivity.
  - rewrite (proj2 (addTransform_extremes (Sample.silent 2) (Some 3%Z) store c) (proj2 Hyp)).
    reflexivity.
Defined.
